(** * Guia de procesos constructivos: request orchestration, verified

    A shallow embedding of the TypeScript sources of the repository:

    - [services/errors.ts]: the [ApiError] class hierarchy;
    - [services/geminiService.ts]: [getGenAI], [handleApiError],
      [fetchConstructionProcess] and [generateProcessImage] (module
      [Service]);
    - the sibling service, whose stream loop filters and deduplicates the
      sources (module [ServicePro], model [gemini-2.5-pro]);
    - the two [App] components and their [handleSearch] callback (modules
      [App000] and [App001]), which share everything up to the first
      [await];
    - the service of the second component, which returns the image as a
      [Blob] (module [ServiceBlob]), and the service on
      [@google/generative-ai] (module [ServiceGenerative]);
    - the [ResultDisplay] component: the line classifier [formattedText]
      and [handleExportTxt] (module [ResultDisplay]), and the file names
      and image format of the PDF exports.

    JavaScript strings are modelled as Rocq strings of bytes.  [toLowerCase]
    folds the ASCII letters and [trim] strips the ASCII white space; code
    points outside ASCII are left as they are.  A promise is modelled by the
    way it settles, a response stream by the finite list of its chunks
    followed by its end (normal or exceptional), and the provider by its
    replies, which are inputs.  The component is a machine: its state cells
    and cache, and the searches in flight with their locals; an event is a
    call of [handleSearch], a chunk delivered to [onTextStream], or the
    resumption of a search once both its promises have settled.  State
    updates apply in the order of the calls to the setters.

    The file has three parts: the program, the vocabulary of the
    statements, and the properties. *)

From Stdlib Require Import ZArith Ascii String.
From stdpp Require Import strings gmap list.

Open Scope string_scope.
Open Scope list_scope.

(** ** JavaScript strings *)

Definition lowerCode (c : ascii) : ascii :=
  let n := nat_of_ascii c in
  if (65 <=? n)%nat && (n <=? 90)%nat then ascii_of_nat (n + 32) else c.

(** [s.toLowerCase()] *)
Fixpoint toLowerCase (s : string) : string :=
  match s with
  | EmptyString => EmptyString
  | String c t => String (lowerCode c) (toLowerCase t)
  end.

(** White space of [String.prototype.trim], ASCII part: TAB, LF, VT, FF, CR
    and SPACE. *)
Definition isWhiteSpace (c : ascii) : bool :=
  let n := nat_of_ascii c in
  ((9 <=? n)%nat && (n <=? 13)%nat) || (n =? 32)%nat.

Fixpoint trimStart (s : string) : string :=
  match s with
  | EmptyString => EmptyString
  | String c t => if isWhiteSpace c then trimStart t else s
  end.

Fixpoint trimEnd (s : string) : string :=
  match s with
  | EmptyString => EmptyString
  | String c t =>
      match trimEnd t with
      | EmptyString => if isWhiteSpace c then EmptyString else String c EmptyString
      | t' => String c t'
      end
  end.

(** [s.trim()] *)
Definition trim (s : string) : string := trimEnd (trimStart s).

(** [s.includes(needle)] *)
Fixpoint includes (s needle : string) : bool :=
  String.prefix needle s ||
  match s with
  | EmptyString => false
  | String _ t => includes t needle
  end.

(** [s.endsWith(suffix)] *)
Fixpoint endsWith (s suffix : string) : bool :=
  String.eqb s suffix ||
  match s with
  | EmptyString => false
  | String _ t => endsWith t suffix
  end.

(** A string in a boolean position: only the empty string is falsy. *)
Definition nonEmpty (s : string) : bool := negb (String.eqb s "").

(** [searchQuery.trim().toLowerCase()] *)
Definition normalize (searchQuery : string) : string :=
  toLowerCase (trim searchQuery).

(** ** services/errors.ts *)

Inductive ErrorClass :=
| ApiError
| NetworkError
| InvalidQueryError
| ServiceUnavailableError
| NoApiKeyError.

#[global] Instance ErrorClass_eq_dec : EqDecision ErrorClass.
Proof. solve_decision. Defined.

(** [this.name], as set by each constructor. *)
Definition className (c : ErrorClass) : string :=
  match c with
  | ApiError => "ApiError"
  | NetworkError => "NetworkError"
  | InvalidQueryError => "InvalidQueryError"
  | ServiceUnavailableError => "ServiceUnavailableError"
  | NoApiKeyError => "NoApiKeyError"
  end.

(** An instance of [ApiError] or of one of its subclasses. *)
Record ApiErrorObj := newError { errClass : ErrorClass; errMessage : string }.

#[global] Instance ApiErrorObj_eq_dec : EqDecision ApiErrorObj.
Proof. solve_decision. Defined.

(** The default messages of the subclass constructors. *)
Definition newNetworkError : ApiErrorObj :=
  newError NetworkError
    "Error de red. Por favor, revise su conexión a internet e inténtelo de nuevo.".

Definition newInvalidQueryError : ApiErrorObj :=
  newError InvalidQueryError
    "La consulta es inválida o no se pudo procesar. Pruebe con una búsqueda diferente.".

Definition newServiceUnavailableError : ApiErrorObj :=
  newError ServiceUnavailableError
    "El servicio no está disponible en este momento. Por favor, intente más tarde.".

Definition newNoApiKeyError : ApiErrorObj :=
  newError NoApiKeyError
    "La clave de API no está configurada. Contacte al administrador de la aplicación.".

(** ** Values thrown by the provider SDK *)

(** The primitive values a property of a thrown object can hold.  Numbers
    are integers (HTTP status codes). *)
Inductive JsValue :=
| JsUndefined
| JsNull
| JsBoolean (b : bool)
| JsNumber (n : Z)
| JsString (s : string).

#[global] Instance JsValue_eq_dec : EqDecision JsValue.
Proof. solve_decision. Defined.

Definition truthy (v : JsValue) : bool :=
  match v with
  | JsUndefined | JsNull => false
  | JsBoolean b => b
  | JsNumber n => negb (n =? 0)%Z
  | JsString s => nonEmpty s
  end.

(** [a || b] and [a && b] on values. *)
Definition jsOr (a b : JsValue) : JsValue := if truthy a then a else b.
Definition jsAnd (a b : JsValue) : JsValue := if truthy a then b else a.

(** [a === b] *)
Definition strictEq (a b : JsValue) : bool := bool_decide (a = b).

(** The property [error.e]: a primitive, or an object with a [code]. *)
Inductive EProperty :=
| EValue (v : JsValue)
| EObject (code : JsValue).

(** An object that is not an [ApiError], seen through the properties that
    [handleApiError] reads: [message], [httpStatus], [status] and [e]. *)
Record ForeignError := {
  fe_message : JsValue;
  fe_httpStatus : JsValue;
  fe_status : JsValue;
  fe_e : EProperty
}.

(** What a [catch (error)] clause can receive. *)
Inductive Thrown :=
| ThrownApiError (a : ApiErrorObj)
| ThrownObject (o : ForeignError)
| ThrownPrimitive (v : JsValue).

(** What leaves [handleApiError]: the [ApiError] it throws, or the
    [TypeError] raised by the engine while it evaluates
    [error.message.toLowerCase()]. *)
Inductive Raised :=
| RaisedApiError (a : ApiErrorObj)
| RaisedTypeError.

#[global] Instance Raised_eq_dec : EqDecision Raised.
Proof. solve_decision. Defined.

(** A settled promise, as [Promise.allSettled] reports it. *)
Inductive Settled (V E : Type) :=
| Fulfilled (value : V)
| Rejected (reason : E).
Arguments Fulfilled {V E} value.
Arguments Rejected {V E} reason.

(** The reply of a provider call made inside a [try] block. *)
Inductive Provider (R : Type) :=
| Returns (r : R)
| Throws (err : Thrown).
Arguments Returns {R} r.
Arguments Throws {R} err.

(** ** Provider payloads *)

(** A citation as the API types it: every property is optional. *)
Record Web := { uri : option string; title : option string }.
Record RawGroundingChunk := { web : option Web }.

#[global] Instance Web_eq_dec : EqDecision Web.
Proof. solve_decision. Defined.
#[global] Instance RawGroundingChunk_eq_dec : EqDecision RawGroundingChunk.
Proof. solve_decision. Defined.

(** The application's own, stricter [GroundingChunk]:
    [{ web: { uri: string; title: string } }]. *)
Record GroundingChunk := { gc_uri : string; gc_title : string }.

#[global] Instance GroundingChunk_eq_dec : EqDecision GroundingChunk.
Proof. solve_decision. Defined.

(** A chunk of the response stream: [chunk.text] and
    [chunk.candidates?.[0]?.groundingMetadata?.groundingChunks]. *)
Record Chunk := {
  chunk_text : option string;
  chunk_groundingChunks : option (list RawGroundingChunk)
}.

(** The stream ends normally, or its iteration throws. *)
Inductive StreamEnd :=
| StreamDone
| StreamThrows (err : Thrown).

Record ResultStream := { stream_chunks : list Chunk; stream_end : StreamEnd }.

(** What a run of [fetchConstructionProcess] does: the arguments of its
    calls to [onStream], in order, and then the way its promise settles. *)
Record FetchRun (A S E : Type) := {
  onStreamCalls : list A;
  fetchSettled : Settled (list S) E
}.
Arguments onStreamCalls {A S E} _.
Arguments fetchSettled {A S E} _.

(** The reply of [ai.models.generateImages]. *)
Record Image := { imageBytes : option string }.
Record GeneratedImage := { image : option Image }.
Record GenerateImagesResponse := { generatedImages : option (list GeneratedImage) }.

(** ** services/geminiService.ts *)

Module Service.

Section WithToNumber.

(** [ToNumber] of the engine on strings, [None] for [NaN]; it decides
    [status >= 500] when the status is a string. *)
Variable ToNumber : string -> option Z.

(** [getGenAI]: the client (its key), or the [NoApiKeyError] it throws. *)
Definition getGenAI (apiKey : option string) : ApiErrorObj + string :=
  match apiKey with
  | Some k => if nonEmpty k then inr k else inl newNoApiKeyError
  | None => inl newNoApiKeyError
  end.

(** [error.e && error.e.code] *)
Definition eCode (p : EProperty) : JsValue :=
  match p with
  | EValue v => jsAnd v JsUndefined
  | EObject code => code
  end.

(** [v >= k] for a number [k] *)
Definition geNumber (v : JsValue) (k : Z) : bool :=
  match v with
  | JsNumber n => (k <=? n)%Z
  | JsString s => match ToNumber s with Some n => (k <=? n)%Z | None => false end
  | JsBoolean b => (k <=? (if b then 1 else 0))%Z
  | JsNull => (k <=? 0)%Z
  | JsUndefined => false
  end.

Definition unexpectedError : ApiErrorObj :=
  newError ApiError
    "Ocurrió un error inesperado al comunicarse con el servicio de IA.".

Definition invalidQueryError : ApiErrorObj :=
  newError InvalidQueryError
    "La consulta es inválida o el modelo no pudo procesarla. Por favor, reformule su búsqueda.".

(** [error.httpStatus || error.status || (error.e && error.e.code)] *)
Definition statusOf (o : ForeignError) : JsValue :=
  jsOr (jsOr (fe_httpStatus o) (fe_status o)) (eCode (fe_e o)).

(** The part of [handleApiError] after the network check. *)
Definition classifyStatus (o : ForeignError) : ApiErrorObj :=
  let status := statusOf o in
  if truthy status then
    if strictEq status (JsNumber 400) || strictEq status (JsString "INVALID_ARGUMENT")
    then invalidQueryError
    else if geNumber status 500 || strictEq status (JsString "UNAVAILABLE")
    then newServiceUnavailableError
    else unexpectedError
  else unexpectedError.

(** [message.toLowerCase().includes('network') ||
     message.toLowerCase().includes('failed to fetch')] *)
Definition isNetworkMessage (m : string) : bool :=
  includes (toLowerCase m) "network" || includes (toLowerCase m) "failed to fetch".

(** [handleApiError]: its return type is [never]; the result is what it
    throws.  Reading [message] of [null] or [undefined], and calling
    [toLowerCase] on a [message] that is not a string, make the engine throw
    a [TypeError]. *)
Definition handleApiError (error : Thrown) : Raised :=
  match error with
  | ThrownApiError a => RaisedApiError a
  | ThrownPrimitive _ => RaisedTypeError
  | ThrownObject o =>
      match fe_message o with
      | JsString m =>
          if isNetworkMessage m then RaisedApiError newNetworkError
          else RaisedApiError (classifyStatus o)
      | _ => RaisedTypeError
      end
  end.

(** The loop body of [fetchConstructionProcess]: [onStream(chunk.text)],
    then [sources] is replaced when the chunk carries citation metadata. *)
Definition consume (acc : list (option string) * list RawGroundingChunk) (chunk : Chunk)
  : list (option string) * list RawGroundingChunk :=
  (acc.1 ++ [chunk_text chunk],
   match chunk_groundingChunks chunk with
   | Some groundingChunks => groundingChunks
   | None => acc.2
   end).

(** [fetchConstructionProcess(query, onStream)], given the API key of the
    environment and the reply of [generateContentStream] to the prompt. *)
Definition fetchConstructionProcess (apiKey : option string)
    (resultStream : Provider ResultStream)
  : FetchRun (option string) RawGroundingChunk Raised :=
  match getGenAI apiKey with
  | inl err => {| onStreamCalls := []; fetchSettled := Rejected (RaisedApiError err) |}
  | inr _ =>
      match resultStream with
      | Throws err => {| onStreamCalls := []; fetchSettled := Rejected (handleApiError err) |}
      | Returns stream =>
          let '(calls, sources) := foldl consume ([], []) (stream_chunks stream) in
          {| onStreamCalls := calls;
             fetchSettled :=
               match stream_end stream with
               | StreamDone => Fulfilled sources
               | StreamThrows err => Rejected (handleApiError err)
               end |}
      end
  end.

Definition invalidImageError : ApiErrorObj :=
  newError ApiError "La generación de imagen no devolvió datos válidos.".

(** The bytes that pass both tests of [generateProcessImage]:
    [response.generatedImages && response.generatedImages.length > 0], then
    [image.image?.imageBytes]. *)
Definition firstImageBytes (response : GenerateImagesResponse) : option string :=
  match generatedImages response with
  | Some (img :: _) =>
      match image img with
      | Some i =>
          match imageBytes i with
          | Some bytes => if nonEmpty bytes then Some bytes else None
          | None => None
          end
      | None => None
      end
  | _ => None
  end.

(** [generateProcessImage(query)], given the API key of the environment and
    the reply of [generateImages] to the prompt. *)
Definition generateProcessImage (apiKey : option string)
    (response : Provider GenerateImagesResponse) : Settled string Raised :=
  match getGenAI apiKey with
  | inl err => Rejected (RaisedApiError err)
  | inr _ =>
      match response with
      | Throws err => Rejected (handleApiError err)
      | Returns response =>
          match firstImageBytes response with
          | Some base64ImageBytes => Fulfilled ("data:image/jpeg;base64," +:+ base64ImageBytes)
          | None => Rejected (handleApiError (ThrownApiError invalidImageError))
          end
      end
  end.

(** The [TypeError] of the engine, caught again: an [Error] object with the
    engine's message and none of the status properties. *)
Definition typeErrorObject (engineMessage : string) : ForeignError :=
  {| fe_message := JsString engineMessage;
     fe_httpStatus := JsUndefined;
     fe_status := JsUndefined;
     fe_e := EValue JsUndefined |}.

(** The value an enclosing [catch] receives from [handleApiError]. *)
Definition caught (engineMessage : string) (r : Raised) : Thrown :=
  match r with
  | RaisedApiError a => ThrownApiError a
  | RaisedTypeError => ThrownObject (typeErrorObject engineMessage)
  end.

(** The classification step applied to its own outcome. *)
Definition handleApiErrorTwice (engineMessage : string) (error : Thrown) : Raised :=
  handleApiError (caught engineMessage (handleApiError error)).

End WithToNumber.

End Service.

(** ** The sibling service: streaming with deduplicated sources *)

Module ServicePro.

(** [title: source.web.title || source.web.uri] *)
Definition titleOr (t : option string) (u : string) : string :=
  match t with
  | Some t => if nonEmpty t then t else u
  | None => u
  end.

(** The body of [chunkSources.forEach(source => ...)]. *)
Definition pushSource (sources : list GroundingChunk) (source : RawGroundingChunk)
  : list GroundingChunk :=
  match web source with
  | Some w =>
      match uri w with
      | Some u =>
          if nonEmpty u && negb (existsb (fun s => String.eqb (gc_uri s) u) sources)
          then sources ++ [ {| gc_uri := u; gc_title := titleOr (title w) u |} ]
          else sources
      | None => sources
      end
  | None => sources
  end.

(** The loop body: [if (textChunk) onStream(textChunk)], then the citation
    metadata of the chunk is merged into [sources]. *)
Definition consume (acc : list string * list GroundingChunk) (chunk : Chunk)
  : list string * list GroundingChunk :=
  (match chunk_text chunk with
   | Some textChunk => if nonEmpty textChunk then acc.1 ++ [textChunk] else acc.1
   | None => acc.1
   end,
   match chunk_groundingChunks chunk with
   | Some chunkSources => foldl pushSource acc.2 chunkSources
   | None => acc.2
   end).

(** The message of the plain [Error] thrown by the [catch] clause. *)
Definition textFailure : string :=
  "No se pudo generar el texto del proceso constructivo.".

(** [fetchConstructionProcess(query, onStream)], given the reply of
    [generateContentStream]; the rejection is a plain [Error], given by its
    message. *)
Definition fetchConstructionProcess (responseStream : Provider ResultStream)
  : FetchRun string GroundingChunk string :=
  match responseStream with
  | Throws _ => {| onStreamCalls := []; fetchSettled := Rejected textFailure |}
  | Returns stream =>
      let '(calls, sources) := foldl consume ([], []) (stream_chunks stream) in
      {| onStreamCalls := calls;
         fetchSettled :=
           match stream_end stream with
           | StreamDone => Fulfilled sources
           | StreamThrows _ => Rejected textFailure
           end |}
  end.

End ServicePro.

(** ** The state of the [App] component *)

(** [SearchResult]: the report text and its sources. *)
Record SearchResult := { text : string; sources : list GroundingChunk }.

(** A value of the [cache] map. *)
Record CacheEntry := { result : SearchResult; cachedImageUrl : option string }.

(** The [useState] cells that [handleSearch] writes, and the [cache] ref. *)
Record AppState := {
  searchHistory : list string;
  searchResult : option SearchResult;
  imageUrl : option string;
  isLoading : bool;
  isImageLoading : bool;
  error : option string;
  imageError : option string;
  isSearching : bool;
  cache : gmap string CacheEntry
}.

(** The first render: every cell at its initial value, the cache empty. *)
Definition initialState : AppState :=
  {| searchHistory := []; searchResult := None; imageUrl := None;
     isLoading := false; isImageLoading := false; error := None;
     imageError := None; isSearching := false; cache := ∅ |}.

Definition setSearchHistory (f : list string -> list string) (st : AppState) : AppState :=
  {| searchHistory := f (searchHistory st); searchResult := searchResult st;
     imageUrl := imageUrl st; isLoading := isLoading st;
     isImageLoading := isImageLoading st; error := error st;
     imageError := imageError st; isSearching := isSearching st; cache := cache st |}.

Definition setSearchResult (f : option SearchResult -> option SearchResult)
    (st : AppState) : AppState :=
  {| searchHistory := searchHistory st; searchResult := f (searchResult st);
     imageUrl := imageUrl st; isLoading := isLoading st;
     isImageLoading := isImageLoading st; error := error st;
     imageError := imageError st; isSearching := isSearching st; cache := cache st |}.

Definition setImageUrl (v : option string) (st : AppState) : AppState :=
  {| searchHistory := searchHistory st; searchResult := searchResult st;
     imageUrl := v; isLoading := isLoading st;
     isImageLoading := isImageLoading st; error := error st;
     imageError := imageError st; isSearching := isSearching st; cache := cache st |}.

Definition setIsLoading (v : bool) (st : AppState) : AppState :=
  {| searchHistory := searchHistory st; searchResult := searchResult st;
     imageUrl := imageUrl st; isLoading := v;
     isImageLoading := isImageLoading st; error := error st;
     imageError := imageError st; isSearching := isSearching st; cache := cache st |}.

Definition setIsImageLoading (v : bool) (st : AppState) : AppState :=
  {| searchHistory := searchHistory st; searchResult := searchResult st;
     imageUrl := imageUrl st; isLoading := isLoading st;
     isImageLoading := v; error := error st;
     imageError := imageError st; isSearching := isSearching st; cache := cache st |}.

Definition setError (v : option string) (st : AppState) : AppState :=
  {| searchHistory := searchHistory st; searchResult := searchResult st;
     imageUrl := imageUrl st; isLoading := isLoading st;
     isImageLoading := isImageLoading st; error := v;
     imageError := imageError st; isSearching := isSearching st; cache := cache st |}.

Definition setImageError (v : option string) (st : AppState) : AppState :=
  {| searchHistory := searchHistory st; searchResult := searchResult st;
     imageUrl := imageUrl st; isLoading := isLoading st;
     isImageLoading := isImageLoading st; error := error st;
     imageError := v; isSearching := isSearching st; cache := cache st |}.

Definition setIsSearching (v : bool) (st : AppState) : AppState :=
  {| searchHistory := searchHistory st; searchResult := searchResult st;
     imageUrl := imageUrl st; isLoading := isLoading st;
     isImageLoading := isImageLoading st; error := error st;
     imageError := imageError st; isSearching := v; cache := cache st |}.

(** [cache.current.set(k, v)] and [cache.current.delete(k)] *)
Definition updCache (f : gmap string CacheEntry -> gmap string CacheEntry)
    (st : AppState) : AppState :=
  {| searchHistory := searchHistory st; searchResult := searchResult st;
     imageUrl := imageUrl st; isLoading := isLoading st;
     isImageLoading := isImageLoading st; error := error st;
     imageError := imageError st; isSearching := isSearching st; cache := f (cache st) |}.

(** The reason of a rejected generator promise: an [Error] object, read
    through [name] and [message]. *)
Record Reason := { reasonName : string; reasonMessage : string }.

(** [reason.name.endsWith('Error') ? reason.message : fallback] *)
Definition errorMessage (reason : Reason) (fallback : string) : string :=
  if endsWith (reasonName reason) "Error" then reasonMessage reason else fallback.

Definition imageFallback : string :=
  "No se pudo generar la ilustración para este proceso.".

Definition textFallback : string :=
  "Ocurrió un error al obtener los detalles del proceso.".

(** [[searchQuery, ...prev.filter(q => q.toLowerCase() !== normalizedQuery)].slice(0, 3)] *)
Definition updateHistory (searchQuery normalizedQuery : string) (prev : list string)
  : list string :=
  take 3 (searchQuery :: filter (fun q => toLowerCase q ≠ normalizedQuery) prev).

(** The calls that leave the component. *)
Inductive Call :=
| GenerateProcessImage (query : string)
| FetchConstructionProcess (query : string)
| RevokeObjectURL (url : string)
| CreateObjectURL.

(** The locals of one invocation of [handleSearch] that its continuation
    and [onTextStream] close over.  [capturedIsLoading] is the [isLoading]
    of the render that built the callback. *)
Record Invocation := {
  searchQuery : string;
  normalizedQuery : string;
  fullText : string;
  capturedIsLoading : bool;
  capturedImageUrl : option string
}.

Definition appendFullText (textChunk : string) (inv : Invocation) : Invocation :=
  {| searchQuery := searchQuery inv; normalizedQuery := normalizedQuery inv;
     fullText := fullText inv +:+ textChunk;
     capturedIsLoading := capturedIsLoading inv;
     capturedImageUrl := capturedImageUrl inv |}.

(** How the synchronous prefix of [handleSearch] ends. *)
Inductive Entered :=
| Ignored
| CacheHit (st : AppState)
| Pending (st : AppState) (inv : Invocation).

(** The prefix of [handleSearch] up to [await Promise.allSettled]; it is the
    same in both components.  [isSearching] is read from the state: the
    callback is rebuilt whenever [isSearching] changes, so a call made after
    a render sees the rendered value. *)
Definition enter (isLoadingAtRender : bool) (st : AppState) (searchQuery : string)
  : Entered :=
  if isSearching st then Ignored
  else
    let normalizedQuery := normalize searchQuery in
    if negb (nonEmpty normalizedQuery) then Ignored
    else
      match cache st !! normalizedQuery with
      | Some cachedData =>
          CacheHit
            (setSearchHistory (updateHistory searchQuery normalizedQuery)
              (setIsImageLoading false
                (setIsLoading false
                  (setImageError None
                    (setError None
                      (setImageUrl (cachedImageUrl cachedData)
                        (setSearchResult (fun _ => Some (result cachedData)) st)))))))
      | None =>
          Pending
            (setImageUrl None
              (setSearchResult (fun _ => None)
                (setImageError None
                  (setError None
                    (setIsImageLoading true
                      (setIsLoading true
                        (setIsSearching true st)))))))
            {| searchQuery := searchQuery; normalizedQuery := normalizedQuery;
               fullText := ""; capturedIsLoading := isLoadingAtRender;
               capturedImageUrl := imageUrl st |}
      end.

(** [chunk || ''] *)
Definition orEmpty (chunk : option string) : string :=
  match chunk with Some s => s | None => "" end.

(** [onTextStream(chunk)]; [prev?.sources || []] is [prev.sources] whenever
    [prev] is an object, an array being truthy. *)
Definition onTextStream (acc : Invocation * AppState) (chunk : option string)
  : Invocation * AppState :=
  let '(inv, st) := acc in
  let st := if capturedIsLoading inv then setIsLoading false st else st in
  let textChunk := orEmpty chunk in
  (appendFullText textChunk inv,
   setSearchResult
     (fun prev =>
        Some {| text := match prev with Some p => text p | None => "" end +:+ textChunk;
                sources := match prev with Some p => sources p | None => [] end |})
     st).

(** The [finally] block. *)
Definition finally (st : AppState) : AppState :=
  setIsImageLoading false (setIsLoading false (setIsSearching false st)).

(** What the generators of one search do: the image promise, the arguments
    [fetchConstructionProcess] passes to [onTextStream], and the sources
    promise. *)
Record Run (V : Type) := {
  imageResult : Settled V Reason;
  streamed : list (option string);
  sourcesResult : Settled (list GroundingChunk) Reason
}.
Arguments imageResult {V} _.
Arguments streamed {V} _.
Arguments sourcesResult {V} _.

(** ** The component as a machine *)

Section Component.

Context {V : Type}.

(** The continuation of [handleSearch] after [await Promise.allSettled]:
    each component has its own. *)
Variable settle :
  Invocation -> AppState -> Settled V Reason ->
  Settled (list GroundingChunk) Reason -> AppState * list Call.

(** One whole call of [handleSearch], with the generators behaving as
    [run] says: the final state and the calls made. *)
Definition runSearch (isLoadingAtRender : bool) (st : AppState)
    (searchQuery : string) (run : Run V) : AppState * list Call :=
  match enter isLoadingAtRender st searchQuery with
  | Ignored => (st, [])
  | CacheHit st1 => (st1, [])
  | Pending st1 inv =>
      let '(inv', st2) := foldl onTextStream (inv, st1) (streamed run) in
      let '(st3, calls) := settle inv' st2 (imageResult run) (sourcesResult run) in
      (st3, [GenerateProcessImage searchQuery; FetchConstructionProcess searchQuery] ++ calls)
  end.

(** The component between events: its state and the searches in flight,
    each with its own locals. *)
Record Machine := { app : AppState; inflight : list Invocation }.

Inductive Event :=
| Search (isLoadingAtRender : bool) (searchQuery : string)
| TextChunk (i : nat) (chunk : option string)
| BothSettled (i : nat) (imageResult : Settled V Reason)
    (sourcesResult : Settled (list GroundingChunk) Reason).

(** One event: a call of [handleSearch] up to its [await], a call of
    [onTextStream] by the generator of the [i]-th search in flight, or the
    resumption of the [i]-th search after both its promises settled. *)
Definition step (m : Machine) (ev : Event) : Machine * list Call :=
  match ev with
  | Search isLoadingAtRender searchQuery =>
      match enter isLoadingAtRender (app m) searchQuery with
      | Ignored => (m, [])
      | CacheHit st1 => ({| app := st1; inflight := inflight m |}, [])
      | Pending st1 inv =>
          ({| app := st1; inflight := inflight m ++ [inv] |},
           [GenerateProcessImage searchQuery; FetchConstructionProcess searchQuery])
      end
  | TextChunk i chunk =>
      match inflight m !! i with
      | Some inv =>
          let '(inv', st1) := onTextStream (inv, app m) chunk in
          ({| app := st1; inflight := <[i := inv']> (inflight m) |}, [])
      | None => (m, [])
      end
  | BothSettled i imageResult sourcesResult =>
      match inflight m !! i with
      | Some inv =>
          let '(st1, calls) := settle inv (app m) imageResult sourcesResult in
          ({| app := st1; inflight := delete i (inflight m) |}, calls)
      | None => (m, [])
      end
  end.

(** A sequence of events, from left to right, with all the calls made. *)
Definition steps (m : Machine) (evs : list Event) : Machine * list Call :=
  foldl (fun acc ev => let '(m', calls) := step acc.1 ev in (m', acc.2 ++ calls))
        (m, []) evs.

Definition start : Machine := {| app := initialState; inflight := [] |}.

(** The states the component can be in. *)
Definition reachable (m : Machine) : Prop := ∃ evs, (steps start evs).1 = m.

End Component.

(** ** The first [App] component: the image is a data URL *)

Module App000.

(** The generators reject with [Error] objects only, whose [name] is a
    string, so that nothing throws inside the [try] block and the [catch]
    clause is never entered. *)
Definition settle (inv : Invocation) (st : AppState)
    (imageResult : Settled string Reason)
    (sourcesResult : Settled (list GroundingChunk) Reason) : AppState * list Call :=
  let st := setIsImageLoading false st in
  let '(finalImageUrl, st) :=
    match imageResult with
    | Fulfilled value =>
        if nonEmpty value
        then (Some value, setImageError None (setImageUrl (Some value) st))
        else (None, st)
    | Rejected reason =>
        (None, setImageError (Some (errorMessage reason imageFallback)) st)
    end in
  let st :=
    match sourcesResult with
    | Fulfilled finalSources =>
        let st :=
          setSearchResult
            (fun prev =>
               Some {| text := match prev with
                               | Some p => if nonEmpty (text p) then text p else fullText inv
                               | None => fullText inv
                               end;
                       sources := finalSources |}) st in
        let st :=
          setSearchHistory (updateHistory (searchQuery inv) (normalizedQuery inv)) st in
        let st :=
          match imageResult, finalImageUrl with
          | Fulfilled _, Some url =>
              if nonEmpty url
              then updCache
                     (insert (normalizedQuery inv)
                        {| result := {| text := fullText inv; sources := finalSources |};
                           cachedImageUrl := Some url |}) st
              else updCache (delete (normalizedQuery inv)) st
          | _, _ => updCache (delete (normalizedQuery inv)) st
          end in
        setError None st
    | Rejected reason =>
        updCache (delete (normalizedQuery inv))
          (setSearchResult (fun _ => None)
             (setError (Some (errorMessage reason textFallback)) st))
    end in
  (finally st, []).

Definition handleSearch := runSearch settle.

End App000.

(** ** The second [App] component: the image is a [Blob] *)

(** The [Blob] the image generator resolves with, and the URL that
    [URL.createObjectURL] mints for it. *)
Record BlobImage := { blobBytes : string; blobType : string; objectURL : string }.

Module App001.

(** [if (imageUrl) URL.revokeObjectURL(imageUrl)], on the [imageUrl] of the
    render that built the callback. *)
Definition revokePrevious (captured : option string) : list Call :=
  match captured with
  | Some u => if nonEmpty u then [RevokeObjectURL u] else []
  | None => []
  end.

Definition settle (inv : Invocation) (st : AppState)
    (imageResult : Settled BlobImage Reason)
    (sourcesResult : Settled (list GroundingChunk) Reason) : AppState * list Call :=
  let st := setIsImageLoading false st in
  let '(finalImageUrl, st, calls) :=
    match imageResult with
    | Fulfilled blob =>
        let url := objectURL blob in
        (Some url, setImageError None (setImageUrl (Some url) st),
         revokePrevious (capturedImageUrl inv) ++ [CreateObjectURL])
    | Rejected reason =>
        (None, setImageError (Some (errorMessage reason imageFallback)) st, [])
    end in
  let st :=
    match sourcesResult with
    | Fulfilled finalSources =>
        let st :=
          setSearchResult
            (fun _ => Some {| text := fullText inv; sources := finalSources |}) st in
        let st :=
          setSearchHistory (updateHistory (searchQuery inv) (normalizedQuery inv)) st in
        let st :=
          match finalImageUrl with
          | Some url =>
              if nonEmpty url
              then updCache
                     (insert (normalizedQuery inv)
                        {| result := {| text := fullText inv; sources := finalSources |};
                           cachedImageUrl := Some url |}) st
              else updCache (delete (normalizedQuery inv)) st
          | None => updCache (delete (normalizedQuery inv)) st
          end in
        setError None st
    | Rejected reason =>
        updCache (delete (normalizedQuery inv))
          (setSearchResult (fun _ => None)
             (setError (Some (errorMessage reason textFallback)) st))
    end in
  (finally st, calls).

Definition handleSearch := runSearch settle.

End App001.

(** ** More of JavaScript's strings *)

Definition upperCode (c : ascii) : ascii :=
  let n := nat_of_ascii c in
  if (97 <=? n)%nat && (n <=? 122)%nat then ascii_of_nat (n - 32) else c.

(** [s.toUpperCase()] *)
Fixpoint toUpperCase (s : string) : string :=
  match s with
  | EmptyString => EmptyString
  | String c t => String (upperCode c) (toUpperCase t)
  end.

(** [s.indexOf(ch)] for a one-character [ch]: [-1] when [ch] is absent. *)
Fixpoint indexOf (s : string) (ch : ascii) : Z :=
  match s with
  | EmptyString => (-1)%Z
  | String c t =>
      if Ascii.eqb c ch then 0%Z
      else let i := indexOf t ch in if (i <? 0)%Z then (-1)%Z else (i + 1)%Z
  end.

(** The first [n] characters of [s], and [s] without them. *)
Fixpoint takeString (n : nat) (s : string) : string :=
  match n, s with
  | S n, String c t => String c (takeString n t)
  | _, _ => EmptyString
  end.

Fixpoint dropString (n : nat) (s : string) : string :=
  match n, s with
  | S n, String _ t => dropString n t
  | _, _ => s
  end.

(** [s.substring(a, b)]: negative indices count as 0, indices beyond the
    end as the length, and the two are swapped when [a > b]. *)
Definition substring (s : string) (a b : Z) : string :=
  let a := Z.to_nat (Z.max 0 a) in
  let b := Z.to_nat (Z.max 0 b) in
  takeString (Nat.max a b - Nat.min a b) (dropString (Nat.min a b) s).

(** [s.split(sep)] for a one-character [sep]. *)
Fixpoint split (s : string) (sep : ascii) : list string :=
  match s with
  | EmptyString => [EmptyString]
  | String c t =>
      if Ascii.eqb c sep then EmptyString :: split t sep
      else
        match split t sep with
        | h :: r => String c h :: r
        | [] => [String c EmptyString]
        end
  end.

(** [s.replace(/\s+/g, '_')]: [inRun] tells that the character before was
    white space, already replaced. *)
Fixpoint replaceWhiteSpaceFrom (inRun : bool) (s : string) : string :=
  match s with
  | EmptyString => EmptyString
  | String c t =>
      if isWhiteSpace c
      then if inRun then replaceWhiteSpaceFrom true t
           else String "_" (replaceWhiteSpaceFrom true t)
      else String c (replaceWhiteSpaceFrom false t)
  end.

Definition replaceWhiteSpace (s : string) : string := replaceWhiteSpaceFrom false s.

(** ** The service of the second component: images as [Blob]s *)

(** What [handleApiError] of this service receives: a falsy value, an
    instance of [ApiError], or any other truthy value, given by its string
    [message] when it has one and by [String(error)]. *)
Inductive Caught :=
| CaughtFalsy
| CaughtApiError (a : ApiErrorObj)
| CaughtOther (message : option string) (asString : string).

(** A provider call made inside the [try] block of this service. *)
Inductive Reply (R : Type) :=
| Replies (r : R)
| Fails (error : Caught).
Arguments Replies {R} r.
Arguments Fails {R} error.

(** A [Blob]: its bytes, as a binary string, and its type. *)
Record Blob := { blobData : string; blobMime : string }.

Module ServiceBlob.

(** [process.env.API_KEY || (typeof window !== 'undefined' &&
    (window as any).__API_KEY__)], then [if (!apiKey) throw new
    NoApiKeyError()]; [windowKey] is [None] without a [window]. *)
Definition getGenAI (envKey windowKey : option string) : ApiErrorObj + string :=
  let fromWindow :=
    match windowKey with
    | Some k => if nonEmpty k then inr k else inl newNoApiKeyError
    | None => inl newNoApiKeyError
    end in
  match envKey with
  | Some k => if nonEmpty k then inr k else fromWindow
  | None => fromWindow
  end.

(** [error?.message || String(error)] for a truthy [error]; an [Error] with
    an empty message prints as its name. *)
Definition messageOf (error : Caught) : string :=
  match error with
  | CaughtFalsy => EmptyString
  | CaughtApiError a =>
      if nonEmpty (errMessage a) then errMessage a else className (errClass a)
  | CaughtOther (Some m) asString => if nonEmpty m then m else asString
  | CaughtOther None asString => asString
  end.

(** [/pattern/i.test(msg)] for a pattern of lower-case letters, digits and
    spaces. *)
Definition test (pattern msg : string) : bool := includes (toLowerCase msg) pattern.

(** [handleApiError]: the error it throws. *)
Definition handleApiError (error : Caught) : ApiErrorObj :=
  match error with
  | CaughtFalsy => newError ApiError "Unknown error in image generation"
  | _ =>
      let msg := messageOf error in
      if test "network" msg then newError NetworkError msg
      else if test "invalid query" msg || test "bad request" msg
      then newError InvalidQueryError msg
      else if test "service unavailable" msg || test "timeout" msg
      then newError ServiceUnavailableError msg
      else if test "api key" msg || test "unauthorized" msg || test "401" msg
      then newError NoApiKeyError msg
      else newError ApiError msg
  end.

Definition invalidQuery : ApiErrorObj :=
  newError InvalidQueryError "Query inválida para la generación de imagen.".

Definition noImage : ApiErrorObj :=
  newError ApiError "No se recibió imagen desde el servicio AI.".

Definition noImageBytes : ApiErrorObj :=
  newError ApiError "La generación de imagen no devolvió datos válidos.".

Section WithDecoder.

(** The decoding of [base64ToBlob]: [atob] in the browser, which throws on
    a malformed payload, [Buffer.from] otherwise. *)
Variable decode : string -> Caught + string.

(** [base64ToBlob(base64, mime)] *)
Definition base64ToBlob (base64 mime : string) : Caught + Blob :=
  match decode base64 with
  | inl thrown => inl thrown
  | inr bytes => inr {| blobData := bytes; blobMime := mime |}
  end.

(** [generateProcessImage(query)], given the two places of the API key and
    the reply of [generateImages]. *)
Definition generateProcessImage (envKey windowKey : option string) (query : string)
    (response : Reply (option GenerateImagesResponse)) : Settled Blob ApiErrorObj :=
  if negb (nonEmpty query) then Rejected invalidQuery
  else
    match getGenAI envKey windowKey with
    | inl err => Rejected (handleApiError (CaughtApiError err))
    | inr _ =>
        match response with
        | Fails error => Rejected (handleApiError error)
        | Replies response =>
            match
              match response with
              | Some r =>
                  match generatedImages r with
                  | Some (img :: _) => Some img
                  | _ => None
                  end
              | None => None
              end
            with
            | None => Rejected (handleApiError (CaughtApiError noImage))
            | Some img =>
                match
                  match image img with
                  | Some i =>
                      match imageBytes i with
                      | Some b => if nonEmpty b then Some b else None
                      | None => None
                      end
                  | None => None
                  end
                with
                | None => Rejected (handleApiError (CaughtApiError noImageBytes))
                | Some imageBase64 =>
                    match base64ToBlob imageBase64 "image/jpeg" with
                    | inl thrown => Rejected (handleApiError thrown)
                    | inr blob => Fulfilled blob
                    end
                end
            end
        end
    end.

(** The payload that [convertBase64ToBlob] decodes: what follows the first
    comma, up to the next one, or the whole argument when it has no comma. *)
Definition rawBase64 (base64WithOrWithoutPrefix : string) : string :=
  let commaIndex := indexOf base64WithOrWithoutPrefix "," in
  if (0 <=? commaIndex)%Z
  then match split base64WithOrWithoutPrefix "," !! 1%nat with
       | Some raw => raw
       | None => EmptyString
       end
  else base64WithOrWithoutPrefix.

(** [convertBase64ToBlob(base64WithOrWithoutPrefix)] *)
Definition convertBase64ToBlob (base64WithOrWithoutPrefix : string) : Caught + Blob :=
  base64ToBlob (rawBase64 base64WithOrWithoutPrefix) "image/jpeg".

End WithDecoder.

End ServiceBlob.

(** ** The [ResultDisplay] component *)

Module ResultDisplay.

(** [line.replace(/\*\*/g, '')] *)
Fixpoint removeBold (s : string) : string :=
  match s with
  | EmptyString => EmptyString
  | String c t =>
      if Ascii.eqb c "*" then
        match t with
        | String c' t' =>
            if Ascii.eqb c' "*" then removeBold t' else String c (removeBold t)
        | EmptyString => String c EmptyString
        end
      else String c (removeBold t)
  end.

Fixpoint dropHashes (s : string) : string :=
  match s with
  | EmptyString => EmptyString
  | String c t => if Ascii.eqb c "#" then dropHashes t else s
  end.

(** [s.replace(/#+\s*/, '')]: the first run of [#] goes, with the white
    space after it. *)
Fixpoint removeHeadingMarks (s : string) : string :=
  match s with
  | EmptyString => EmptyString
  | String c t =>
      if Ascii.eqb c "#" then trimStart (dropHashes t)
      else String c (removeHeadingMarks t)
  end.

Definition isDigit (c : ascii) : bool :=
  let n := nat_of_ascii c in (48 <=? n)%nat && (n <=? 57)%nat.

Fixpoint dropDigits (s : string) : string :=
  match s with
  | EmptyString => EmptyString
  | String c t => if isDigit c then dropDigits t else s
  end.

(** [/^\s*\d+\.\s/.test(s)] *)
Definition isNumbered (s : string) : bool :=
  match trimStart s with
  | String c t =>
      isDigit c &&
      match dropDigits t with
      | String dot (String space _) => Ascii.eqb dot "." && isWhiteSpace space
      | _ => false
      end
  | EmptyString => false
  end.

(** The elements that a line is rendered as, with the text they show. *)
Inductive Element :=
| H1 (t : string)
| H2 (t : string)
| SubHeading (t : string)
| NumberedItem (heading body : string)
| NumberedLine (t : string)
| Bullet (t : string)
| LineBreak
| Paragraph (t : string).

(** The callback of [searchResult.text.split('\n').map(...)]. *)
Definition renderLine (line : string) : Element :=
  let processedLine := removeBold line in
  if String.prefix "# " processedLine then H1 (dropString 2 processedLine)
  else if String.prefix "## " processedLine then H2 (dropString 3 processedLine)
  else if String.prefix "###" (trim processedLine)
  then SubHeading (removeHeadingMarks (trim processedLine))
  else if isNumbered processedLine then
    let trimmedLine := trim processedLine in
    let colonIndex := indexOf trimmedLine ":" in
    if (-1 <? colonIndex)%Z
    then NumberedItem (substring trimmedLine 0 (colonIndex + 1))
                      (dropString (Z.to_nat (colonIndex + 1)) trimmedLine)
    else NumberedLine trimmedLine
  else if String.prefix "* " processedLine || String.prefix "- " processedLine
  then Bullet (dropString 2 processedLine)
  else if String.eqb (trim processedLine) "" then LineBreak
  else Paragraph processedLine.

(** [formattedText] *)
Definition formattedText (searchResult : SearchResult) : list Element :=
  renderLine <$> split (text searchResult) "010".

(** [query.replace(/\s+/g, '_').toLowerCase()] *)
Definition slug (query : string) : string := toLowerCase (replaceWhiteSpace query).

(** [handleExportTxt]: the name and the content of the file offered for
    download, if any. *)
Definition handleExportTxt (searchResult : option SearchResult) (query : string)
  : option (string * string) :=
  match searchResult with
  | Some r =>
      if nonEmpty (text r)
      then Some ("resumen_" +:+ slug query +:+ ".txt", text r)
      else None
  | None => None
  end.

End ResultDisplay.

(** ** Exports of the first component *)

(** The name under which [handlePrint] saves the report. *)
Definition reportFileName (query : string) : string :=
  "resumen_" +:+ ResultDisplay.slug query +:+ ".pdf".

(** The name under which [handlePrintImage] saves the illustration. *)
Definition imageFileName (query : string) : string :=
  "esquema_" +:+ ResultDisplay.slug query +:+ ".pdf".

(** [imageUrl.substring(imageUrl.indexOf('/') + 1,
    imageUrl.indexOf(';')).toUpperCase()] of [handlePrintImage] *)
Definition imageFormat (imageUrl : string) : string :=
  toUpperCase (substring imageUrl (indexOf imageUrl "/" + 1) (indexOf imageUrl ";")).

(** ** Exports of the second component *)

Module Print001.

(** The name under which [handlePrint] saves the report. *)
Definition reportFileName (query : string) : string :=
  "proceso_" +:+ replaceWhiteSpace query +:+ ".pdf".

(** The name under which [handlePrintImage] saves the illustration. *)
Definition imageFileName (query : string) : string :=
  "esquema_" +:+ replaceWhiteSpace query +:+ ".pdf".

End Print001.

(** ** The service on [@google/generative-ai] *)

(** The reply of [generateContent], as far as [generateProcessImage] reads
    it: every property but [content] is read with optional chaining. *)
Record InlineData := { data : option string }.
Record Part := { inlineData : option InlineData }.
Record Content := { parts : option (list Part) }.
Record Candidate := { content : option Content }.
Record GenerateContentResponse := { candidates : option (list Candidate) }.

(** The outcome of reading a chain of properties: a value, which may be
    [undefined], or the [TypeError] of reading a property of [undefined]. *)
Inductive Read (A : Type) :=
| ReadValue (v : option A)
| ReadThrows.
Arguments ReadValue {A} v.
Arguments ReadThrows {A}.

Module ServiceGenerative.

(** The [Error] that [fetchConstructionProcess] throws from its [catch]. *)
Definition textFailure : Reason :=
  {| reasonName := "Error";
     reasonMessage := "No se pudo generar el texto del proceso constructivo." |}.

(** The [Error] that [generateProcessImage] throws from its [catch]. *)
Definition imageFailure : Reason :=
  {| reasonName := "Error";
     reasonMessage := "No se pudo generar la imagen del proceso constructivo." |}.

(** [fetchConstructionProcess(query)], given what [generateContent] and
    [result.response.text()] reply. *)
Definition fetchConstructionProcess (reply : Reply string) : Settled string Reason :=
  match reply with
  | Replies text => Fulfilled (trim text)
  | Fails _ => Rejected textFailure
  end.

(** [result.response.candidates?.[0]?.content.parts?.[0]?.inlineData?.data] *)
Definition firstInlineData (response : GenerateContentResponse) : Read string :=
  match candidates response with
  | Some (candidate :: _) =>
      match content candidate with
      | None => ReadThrows
      | Some c =>
          match parts c with
          | Some (part :: _) =>
              match inlineData part with
              | Some d => ReadValue (data d)
              | None => ReadValue None
              end
          | _ => ReadValue None
          end
      end
  | _ => ReadValue None
  end.

Section WithDecoder.

(** [atob], which throws on a malformed payload. *)
Variable decode : string -> Caught + string.

(** [generateProcessImage(query)], given the reply of [generateContent]. *)
Definition generateProcessImage (reply : Reply GenerateContentResponse)
  : Settled Blob Reason :=
  match reply with
  | Fails _ => Rejected imageFailure
  | Replies response =>
      match firstInlineData response with
      | ReadThrows => Rejected imageFailure
      | ReadValue imageBase64 =>
          match imageBase64 with
          | Some b =>
              if nonEmpty b
              then match decode b with
                   | inl _ => Rejected imageFailure
                   | inr byteCharacters =>
                       Fulfilled {| blobData := byteCharacters; blobMime := "image/jpeg" |}
                   end
              else Rejected imageFailure
          | None => Rejected imageFailure
          end
      end
  end.

End WithDecoder.

End ServiceGenerative.

(** * The vocabulary of the statements *)

(** The reply carries no generated image. *)
Definition zeroImages (response : GenerateImagesResponse) : Prop :=
  generatedImages response = None ∨ generatedImages response = Some [].

(** The first generated image carries no image bytes. *)
Definition firstImageWithoutBytes (response : GenerateImagesResponse) : Prop :=
  ∃ img rest,
    generatedImages response = Some (img :: rest) ∧
    (image img = None ∨
     ∃ i, image img = Some i ∧ (imageBytes i = None ∨ imageBytes i = Some "")).

(** An error object without a [message], as a provider may throw it. *)
Definition statusOnlyError : ForeignError :=
  {| fe_message := JsUndefined;
     fe_httpStatus := JsUndefined;
     fe_status := JsNumber 503;
     fe_e := EValue JsUndefined |}.





(** The text increment of a chunk, when it is not empty. *)
Definition textIncrement (chunk : Chunk) : option string :=
  match chunk_text chunk with
  | Some t => if nonEmpty t then Some t else None
  | None => None
  end.

Definition citation (u t : string) : RawGroundingChunk :=
  {| web := Some {| uri := Some u; title := Some t |} |}.

Definition citationA : RawGroundingChunk := citation "https://a.example" "A".
Definition citationB : RawGroundingChunk := citation "https://b.example" "B".
Definition citationC : RawGroundingChunk := citation "https://c.example" "C".

Definition sourceA : GroundingChunk := {| gc_uri := "https://a.example"; gc_title := "A" |}.
Definition sourceB : GroundingChunk := {| gc_uri := "https://b.example"; gc_title := "B" |}.
Definition sourceC : GroundingChunk := {| gc_uri := "https://c.example"; gc_title := "C" |}.

(** The references [A, B, A, C] on one chunk. *)
Definition streamABAC : ResultStream :=
  {| stream_chunks :=
       [ {| chunk_text := Some "texto";
            chunk_groundingChunks := Some [citationA; citationB; citationA; citationC] |} ];
     stream_end := StreamDone |}.

(** The references [A, B] on a first chunk and [A, C] on a second. *)
Definition streamAB_AC : ResultStream :=
  {| stream_chunks :=
       [ {| chunk_text := Some "uno";
            chunk_groundingChunks := Some [citationA; citationB] |};
         {| chunk_text := Some "dos";
            chunk_groundingChunks := Some [citationA; citationC] |} ];
     stream_end := StreamDone |}.

(** A stream whose first chunk has no text (it carries the citations), whose
    second chunk has an empty text and whose third chunk has a text. *)
Definition streamSparse : ResultStream :=
  {| stream_chunks :=
       [ {| chunk_text := None; chunk_groundingChunks := Some [citationA] |};
         {| chunk_text := Some ""; chunk_groundingChunks := None |};
         {| chunk_text := Some "Paso 1"; chunk_groundingChunks := None |} ];
     stream_end := StreamDone |}.

Inductive Variant := FirstApp | SecondApp.

(** What the image generator resolves with. *)
Definition ImageValue (a : Variant) : Type :=
  match a with
  | FirstApp => string
  | SecondApp => BlobImage
  end.

Definition settleOf (a : Variant)
  : Invocation -> AppState -> Settled (ImageValue a) Reason ->
    Settled (list GroundingChunk) Reason -> AppState * list Call :=
  match a with
  | FirstApp => App000.settle
  | SecondApp => App001.settle
  end.

Definition handleSearchOf (a : Variant)
  : bool -> AppState -> string -> Run (ImageValue a) -> AppState * list Call :=
  match a with
  | FirstApp => App000.handleSearch
  | SecondApp => App001.handleSearch
  end.

(** The image reference the component derives from a fulfilled image. *)
Definition imageRef (a : Variant) : ImageValue a -> string :=
  match a with
  | FirstApp => fun value => value
  | SecondApp => objectURL
  end.

(** The text delivered by a sequence of calls to [onTextStream]. *)
Definition joined (chunks : list (option string)) : string :=
  foldr (fun chunk acc => orEmpty chunk +:+ acc) "" chunks.

Definition textOf (r : option SearchResult) : string :=
  match r with Some p => text p | None => "" end.


(** No two entries are equal up to case. *)
Definition caseInsensitiveDistinct (history : list string) : Prop :=
  NoDup (toLowerCase <$> history).

(** Every entry of the cache holds an image reference. *)
Definition entriesHaveImage (st : AppState) : Prop :=
  ∀ k entry, cache st !! k = Some entry ->
    ∃ url, cachedImageUrl entry = Some url ∧ nonEmpty url = true.

(** [isSearching] is clear when no search is in flight, every search in
    flight has a non-blank normalized query, and so has every key of the
    cache. *)
Definition wellFormed (m : Machine) : Prop :=
  (inflight m = [] -> isSearching (app m) = false)
  ∧ (∀ inv, inv ∈ inflight m -> nonEmpty (normalizedQuery inv) = true)
  ∧ (∀ k, is_Some (cache (app m) !! k) -> nonEmpty k = true).

(** An image as each generator resolves with it. *)
Definition goodImage (a : Variant) : ImageValue a :=
  match a with
  | FirstApp => "data:image/jpeg;base64,AAAA"
  | SecondApp =>
      {| blobBytes := "AAAA"; blobType := "image/jpeg"; objectURL := "blob:1" |}
  end.

(** A search on which both generators succeed. *)
Definition goodRun (a : Variant) : Run (ImageValue a) :=
  {| imageResult := Fulfilled (goodImage a);
     streamed := [Some "# Viga"];
     sourcesResult := Fulfilled [] |}.

(** The history after the queries of [queries], searched one after the
    other from the first render, each to completion. *)
Definition historyAfter (a : Variant) (queries : list string) : list string :=
  searchHistory
    (foldl (fun st Q => (handleSearchOf a false st Q (goodRun a)).1) initialState queries).

(** A search whose image generator rejects with a [NetworkError] and whose
    text generator succeeds. *)
Definition imageFailedRun (a : Variant) : Run (ImageValue a) :=
  {| imageResult :=
       Rejected {| reasonName := className NetworkError;
                   reasonMessage := errMessage newNetworkError |};
     streamed := [Some "# Viga"; None; Some "Paso 1"];
     sourcesResult := Fulfilled [sourceA] |}.

(** A search whose text generator rejects with an [InvalidQueryError] after
    one chunk, and whose image generator succeeds. *)
Definition textFailedRun (a : Variant) : Run (ImageValue a) :=
  {| imageResult := Fulfilled (goodImage a);
     streamed := [Some "# Viga"];
     sourcesResult :=
       Rejected {| reasonName := className InvalidQueryError;
                   reasonMessage := errMessage Service.invalidQueryError |} |}.

(** The citation metadata of the last chunk that carries some, the empty
    list when no chunk does. *)
Definition lastMetadata (chunks : list Chunk) : list RawGroundingChunk :=
  default [] (last (omap chunk_groundingChunks chunks)).

(** Strings made of white space only, and strings without white space. *)
Fixpoint allWhiteSpace (s : string) : bool :=
  match s with
  | EmptyString => true
  | String c t => isWhiteSpace c && allWhiteSpace t
  end.

Fixpoint noWhiteSpace (s : string) : bool :=
  match s with
  | EmptyString => true
  | String c t => negb (isWhiteSpace c) && noWhiteSpace t
  end.

(** Strings without a comma. *)
Fixpoint noComma (s : string) : bool :=
  match s with
  | EmptyString => true
  | String c t => negb (Ascii.eqb c ",") && noComma t
  end.

(** An [ApiError] as the component reads it: through [name] and [message]. *)
Definition reasonOf (a : ApiErrorObj) : Reason :=
  {| reasonName := className (errClass a); reasonMessage := errMessage a |}.

(** No search in flight means no flag left set. *)
Definition idleFlagsClear (m : Machine) : Prop :=
  inflight m = [] ->
  isSearching (app m) = false ∧ isLoading (app m) = false ∧ isImageLoading (app m) = false.

(** The texts that an element of the rendered report shows. *)
Definition shown (e : ResultDisplay.Element) : list string :=
  match e with
  | ResultDisplay.H1 t | ResultDisplay.H2 t | ResultDisplay.SubHeading t
  | ResultDisplay.NumberedLine t | ResultDisplay.Bullet t | ResultDisplay.Paragraph t => [t]
  | ResultDisplay.NumberedItem heading body => [heading; body]
  | ResultDisplay.LineBreak => []
  end.

(** * Properties *)

(** ** Strings *)

Lemma nonEmpty_true (s : string) : nonEmpty s = true <-> s ≠ "".
Proof.
  unfold nonEmpty. destruct (String.eqb_spec s ""); simpl; split; congruence.
Qed.

Lemma nonEmpty_false (s : string) : nonEmpty s = false <-> s = "".
Proof.
  unfold nonEmpty. destruct (String.eqb_spec s ""); simpl; split; congruence.
Qed.

(** Queries that differ in case and in surrounding white space have the
    same normalized form. *)
Lemma normalize_example :
  normalize "  Viga de Cimentación " = normalize "viga de cimentación".
Proof. reflexivity. Qed.

(** ** The error taxonomy at the boundary *)

Section Classification.

Variable ToNumber : string -> option Z.

Local Abbreviation handleApiError := (Service.handleApiError ToNumber).

(** An [ApiError] is thrown again as it is. *)
Lemma handleApiError_ApiError (a : ApiErrorObj) :
  handleApiError (ThrownApiError a) = RaisedApiError a.
Proof. reflexivity. Qed.

(** Whenever the thrown object has a string [message], the outcome is one of
    the five classes of [errors.ts]. *)
Lemma handleApiError_classifies (o : ForeignError) (m : string) :
  fe_message o = JsString m ->
  ∃ a, handleApiError (ThrownObject o) = RaisedApiError a.
Proof.
  intros Hm. unfold Service.handleApiError. rewrite Hm.
  destruct (Service.isNetworkMessage m); eauto.
Qed.

(** A message with one of the two network substrings maps to
    [NetworkError], whatever the status. *)
Lemma handleApiError_network (o : ForeignError) (m : string) :
  fe_message o = JsString m ->
  Service.isNetworkMessage m = true ->
  handleApiError (ThrownObject o) = RaisedApiError newNetworkError.
Proof.
  intros Hm Hn. unfold Service.handleApiError. by rewrite Hm, Hn.
Qed.

(** Status 400 or [INVALID_ARGUMENT] maps to [InvalidQueryError], unless the
    message is a network message. *)
Lemma handleApiError_invalid_query (o : ForeignError) (m : string) :
  fe_message o = JsString m ->
  Service.isNetworkMessage m = false ->
  Service.statusOf o = JsNumber 400 ∨ Service.statusOf o = JsString "INVALID_ARGUMENT" ->
  handleApiError (ThrownObject o) = RaisedApiError Service.invalidQueryError.
Proof.
  intros Hm Hn Hs. unfold Service.handleApiError, Service.classifyStatus.
  rewrite Hm, Hn. by destruct Hs as [-> | ->].
Qed.

(** A numeric status of 500 or more, or [UNAVAILABLE], maps to
    [ServiceUnavailableError], unless the message is a network message. *)
Lemma handleApiError_unavailable (o : ForeignError) (m : string) (n : Z) :
  fe_message o = JsString m ->
  Service.isNetworkMessage m = false ->
  (Service.statusOf o = JsNumber n ∧ (500 <= n)%Z) ∨ Service.statusOf o = JsString "UNAVAILABLE" ->
  handleApiError (ThrownObject o) = RaisedApiError newServiceUnavailableError.
Proof.
  intros Hm Hn Hs. unfold Service.handleApiError, Service.classifyStatus.
  rewrite Hm, Hn. destruct Hs as [[-> Hge] | ->].
  2: { simpl. by rewrite orb_true_r. }
  assert (truthy (JsNumber n) = true) as -> by (simpl; destruct (Z.eqb_spec n 0); [lia | done]).
  assert (strictEq (JsNumber n) (JsNumber 400) = false) as ->.
  { unfold strictEq. apply bool_decide_eq_false. intros [=]. lia. }
  simpl. by assert ((500 <=? n)%Z = true) as -> by lia.
Qed.

End Classification.

(** ** The image generator *)

Lemma firstImageBytes_None (response : GenerateImagesResponse) :
  zeroImages response ∨ firstImageWithoutBytes response ->
  Service.firstImageBytes response = None.
Proof.
  unfold Service.firstImageBytes.
  intros [[-> | ->] | (img & rest & -> & Himg)]; [done | done |].
  destruct Himg as [-> | (i & -> & [-> | ->])]; done.
Qed.

(** C5. When the image provider answers without throwing but with no
    generated image, or with a first image that has no bytes,
    [generateProcessImage] rejects with the content-missing error: an
    [ApiError] of the base class with the message of [invalidImageError].
    Its class and its name differ from those of [NetworkError] (transport)
    and of [NoApiKeyError] (credential). *)
Theorem generateProcessImage_content_missing
    (ToNumber : string -> option Z) (apiKey : option string) (key : string)
    (response : GenerateImagesResponse) :
  Service.getGenAI apiKey = inr key ->
  zeroImages response ∨ firstImageWithoutBytes response ->
  Service.generateProcessImage ToNumber apiKey (Returns response)
    = Rejected (RaisedApiError Service.invalidImageError)
  ∧ errClass Service.invalidImageError ≠ NetworkError
  ∧ errClass Service.invalidImageError ≠ NoApiKeyError
  ∧ className (errClass Service.invalidImageError) ≠ className NetworkError
  ∧ className (errClass Service.invalidImageError) ≠ className NoApiKeyError
  ∧ Service.invalidImageError ≠ newNetworkError
  ∧ Service.invalidImageError ≠ newNoApiKeyError.
Proof.
  intros Hkey Hmissing. split_and!; try done.
  unfold Service.generateProcessImage. rewrite Hkey.
  by rewrite (firstImageBytes_None _ Hmissing).
Qed.

Lemma generateProcessImage_content_missing_witness :
  Service.generateProcessImage (fun _ => None) (Some "k")
    (Returns {| generatedImages := Some [ {| image := Some {| imageBytes := None |} |} ] |})
    = Rejected (RaisedApiError Service.invalidImageError).
Proof.
  refine (proj1 (generateProcessImage_content_missing (fun _ => None) (Some "k") "k"
                   {| generatedImages := Some [ {| image := Some {| imageBytes := None |} |} ] |}
                   _ _)).
  - reflexivity.
  - right. exists {| image := Some {| imageBytes := None |} |}, [].
    split; [reflexivity|]. right. eexists. split; [reflexivity|]. by left.
Defined.

(** With a key and usable bytes the promise resolves with the data URL,
    which is never the empty string. *)
Lemma generateProcessImage_resolves
    (ToNumber : string -> option Z) (apiKey : option string) (key bytes : string)
    (response : GenerateImagesResponse) :
  Service.getGenAI apiKey = inr key ->
  Service.firstImageBytes response = Some bytes ->
  Service.generateProcessImage ToNumber apiKey (Returns response)
    = Fulfilled ("data:image/jpeg;base64," +:+ bytes)
  ∧ nonEmpty ("data:image/jpeg;base64," +:+ bytes) = true.
Proof.
  intros Hkey Hb. unfold Service.generateProcessImage. by rewrite Hkey, Hb.
Qed.

(** C10. Classification is idempotent on what is already classified:
    [handleApiError] throws an [ApiError] again as it is, with its class and
    its message, and classifying the outcome once more changes nothing. *)
Theorem handleApiError_idempotent
    (ToNumber : string -> option Z) (engineMessage : string) (a : ApiErrorObj) :
  Service.handleApiError ToNumber (ThrownApiError a) = RaisedApiError a
  ∧ Service.handleApiErrorTwice ToNumber engineMessage (ThrownApiError a)
    = Service.handleApiError ToNumber (ThrownApiError a).
Proof. split; reflexivity. Qed.

(** Classifying twice equals classifying once on every thrown value that the
    first step classifies at all. *)
Lemma handleApiErrorTwice_classified
    (ToNumber : string -> option Z) (engineMessage : string) (x : Thrown) (a : ApiErrorObj) :
  Service.handleApiError ToNumber x = RaisedApiError a ->
  Service.handleApiErrorTwice ToNumber engineMessage x = Service.handleApiError ToNumber x.
Proof.
  intros H. unfold Service.handleApiErrorTwice. by rewrite H.
Qed.

(** C7. On the thrown object [{ status: 503 }], which has no [message],
    [handleApiError] does not classify: the [TypeError] of
    [error.message.toLowerCase()] escapes, and both generators reject with
    it instead of [ServiceUnavailableError]. *)
Theorem handleApiError_TypeError_escapes (ToNumber : string -> option Z) :
  Service.handleApiError ToNumber (ThrownObject statusOnlyError) = RaisedTypeError
  ∧ Service.classifyStatus ToNumber statusOnlyError = newServiceUnavailableError
  ∧ fetchSettled
      (Service.fetchConstructionProcess ToNumber (Some "key")
         (Throws (ThrownObject statusOnlyError)))
    = Rejected RaisedTypeError
  ∧ Service.generateProcessImage ToNumber (Some "key")
      (Throws (ThrownObject statusOnlyError))
    = Rejected RaisedTypeError
  ∧ (∀ a, RaisedTypeError ≠ RaisedApiError a).
Proof. split_and!; done. Qed.

(** A thrown primitive is not classified either. *)
Lemma handleApiError_primitive (ToNumber : string -> option Z) (v : JsValue) :
  Service.handleApiError ToNumber (ThrownPrimitive v) = RaisedTypeError.
Proof. reflexivity. Qed.

(** ** The report generator: sources *)









(** ** The report generator: calls to [onStream] *)

Lemma ServicePro_consume_calls (chunks : list Chunk) (acc : list string * list GroundingChunk) :
  (foldl ServicePro.consume acc chunks).1 = acc.1 ++ omap textIncrement chunks.
Proof.
  revert acc. induction chunks as [|chunk chunks IH]; intros acc; simpl.
  - by rewrite app_nil_r.
  - rewrite IH. unfold textIncrement. simpl.
    destruct (chunk_text chunk) as [t|]; [|done].
    destruct (nonEmpty t); [|done]. by rewrite <- app_assoc.
Qed.

(** The sibling service calls [onStream] once for each chunk with a
    non-empty text, with that text, in order, and for no other chunk. *)
Lemma ServicePro_onStream (stream : ResultStream) :
  onStreamCalls (ServicePro.fetchConstructionProcess (Returns stream))
  = omap textIncrement (stream_chunks stream).
Proof.
  unfold ServicePro.fetchConstructionProcess.
  pose proof (ServicePro_consume_calls (stream_chunks stream) ([], [])) as H.
  destruct (foldl ServicePro.consume ([], []) (stream_chunks stream)). done.
Qed.

Lemma Service_consume_calls (chunks : list Chunk)
    (acc : list (option string) * list RawGroundingChunk) :
  (foldl Service.consume acc chunks).1 = acc.1 ++ (chunk_text <$> chunks).
Proof.
  revert acc. induction chunks as [|chunk chunks IH]; intros acc; simpl.
  - by rewrite app_nil_r.
  - rewrite IH. simpl. by rewrite <- app_assoc.
Qed.

(** The service of [services/geminiService.ts] calls [onStream] once for
    every chunk, with [chunk.text] whatever it is. *)
Lemma Service_onStream (ToNumber : string -> option Z) (apiKey : option string)
    (key : string) (stream : ResultStream) :
  Service.getGenAI apiKey = inr key ->
  onStreamCalls (Service.fetchConstructionProcess ToNumber apiKey (Returns stream))
  = chunk_text <$> stream_chunks stream.
Proof.
  intros Hkey. unfold Service.fetchConstructionProcess. rewrite Hkey.
  pose proof (Service_consume_calls (stream_chunks stream) ([], [])) as H.
  destruct (foldl Service.consume ([], []) (stream_chunks stream)). done.
Qed.

(** ** The report generator on concrete streams *)

(** C3. On chunks that carry the references [A, B, A, C],
    [fetchConstructionProcess] of [services/geminiService.ts] does not
    resolve with [A, B, C]: it resolves with the metadata of the last chunk
    that carries some, as it is, [A, B, A, C] for one chunk and [A, C] when
    the references come on two chunks.  The sibling service resolves with
    [A, B, C] on both streams. *)
Theorem Service_sources_not_merged (ToNumber : string -> option Z) :
  fetchSettled (Service.fetchConstructionProcess ToNumber (Some "key") (Returns streamABAC))
    = Fulfilled [citationA; citationB; citationA; citationC]
  ∧ fetchSettled (Service.fetchConstructionProcess ToNumber (Some "key") (Returns streamAB_AC))
    = Fulfilled [citationA; citationC]
  ∧ fetchSettled (ServicePro.fetchConstructionProcess (Returns streamABAC))
    = Fulfilled [sourceA; sourceB; sourceC]
  ∧ fetchSettled (ServicePro.fetchConstructionProcess (Returns streamAB_AC))
    = Fulfilled [sourceA; sourceB; sourceC].
Proof. split_and!; reflexivity. Qed.

(** C8. On a stream with a chunk without text and a chunk with an empty
    text, [fetchConstructionProcess] of [services/geminiService.ts] calls
    [onStream] for these two chunks as well, with [undefined] and with the
    empty string; the sibling service calls it for the third chunk only. *)
Theorem Service_onStream_on_empty_chunks (ToNumber : string -> option Z) :
  onStreamCalls (Service.fetchConstructionProcess ToNumber (Some "key") (Returns streamSparse))
    = [None; Some ""; Some "Paso 1"]
  ∧ onStreamCalls (ServicePro.fetchConstructionProcess (Returns streamSparse))
    = ["Paso 1"].
Proof. split; reflexivity. Qed.

(** When the stream throws, the calls to [onStream] are those of the chunks
    delivered before, and the promise rejects: no call follows. *)
Lemma ServicePro_onStream_rejected (chunks : list Chunk) (err : Thrown) :
  ServicePro.fetchConstructionProcess
    (Returns {| stream_chunks := chunks; stream_end := StreamThrows err |})
  = {| onStreamCalls := omap textIncrement chunks;
       fetchSettled := Rejected ServicePro.textFailure |}.
Proof.
  pose proof (ServicePro_onStream {| stream_chunks := chunks; stream_end := StreamThrows err |}) as H.
  unfold ServicePro.fetchConstructionProcess in *. simpl in *.
  destruct (foldl ServicePro.consume ([], []) chunks). simpl in H. by rewrite H.
Qed.

(** ** The streaming callback *)

Lemma append_nil_r (s : string) : s +:+ "" = s.
Proof.
  induction s as [|c s IH]; [done|].
  change (String c (s +:+ "") = String c s). by rewrite IH.
Qed.

Lemma append_assoc (s1 s2 s3 : string) : (s1 +:+ s2) +:+ s3 = s1 +:+ (s2 +:+ s3).
Proof.
  induction s1 as [|c s1 IH]; [done|].
  change (String c ((s1 +:+ s2) +:+ s3) = String c (s1 +:+ (s2 +:+ s3))). by rewrite IH.
Qed.

(** The stream of chunks only appends to [fullText] and to the published
    text, and leaves everything else but [isLoading] alone. *)
Lemma foldl_onTextStream (chunks : list (option string)) (inv : Invocation) (st : AppState) :
  ∃ inv' st',
    foldl onTextStream (inv, st) chunks = (inv', st')
    ∧ searchQuery inv' = searchQuery inv
    ∧ normalizedQuery inv' = normalizedQuery inv
    ∧ capturedImageUrl inv' = capturedImageUrl inv
    ∧ fullText inv' = fullText inv +:+ joined chunks
    ∧ textOf (searchResult st') = textOf (searchResult st) +:+ joined chunks
    ∧ cache st' = cache st
    ∧ searchHistory st' = searchHistory st
    ∧ imageUrl st' = imageUrl st
    ∧ error st' = error st
    ∧ imageError st' = imageError st
    ∧ isSearching st' = isSearching st.
Proof.
  revert inv st. induction chunks as [|chunk chunks IH]; intros inv st; simpl.
  - exists inv, st. change (joined []) with "". by rewrite !append_nil_r.
  - destruct (IH (appendFullText (orEmpty chunk) inv)
                (setSearchResult
                   (fun prev =>
                      Some {| text := match prev with Some p => text p | None => "" end
                                      +:+ orEmpty chunk;
                              sources := match prev with Some p => sources p | None => [] end |})
                   (if capturedIsLoading inv then setIsLoading false st else st)))
      as (inv' & st' & Hfold & Hq & Hn & Hu & Hf & Ht & Hc & Hh & Hi & He & Hie & Hs).
    exists inv', st'. rewrite Hfold, Hq, Hn, Hu, Hf, Ht, Hc, Hh, Hi, He, Hie, Hs.
    change (joined (chunk :: chunks)) with (orEmpty chunk +:+ joined chunks).
    simpl. rewrite !append_assoc. unfold textOf.
    by destruct (capturedIsLoading inv).
Qed.

(** ** Entering [handleSearch] *)



Lemma enter_miss (c : bool) (st : AppState) (Q : string) :
  isSearching st = false ->
  nonEmpty (normalize Q) = true ->
  cache st !! normalize Q = None ->
  ∃ st' inv, enter c st Q = Pending st' inv
    ∧ searchQuery inv = Q ∧ normalizedQuery inv = normalize Q
    ∧ fullText inv = "" ∧ capturedImageUrl inv = imageUrl st
    ∧ searchResult st' = None ∧ imageUrl st' = None
    ∧ error st' = None ∧ imageError st' = None
    ∧ isSearching st' = true
    ∧ cache st' = cache st
    ∧ searchHistory st' = searchHistory st.
Proof.
  intros Hs Hq Hc. unfold enter. rewrite Hs, Hq, Hc. simpl.
  do 2 eexists. split; [reflexivity|]. by simpl.
Qed.

(** ** A whole search *)

(** A search that misses the cache runs both generators and then the
    continuation, on locals and a state that the stream has only appended
    text to. *)
Lemma handleSearch_miss (a : Variant) (c : bool) (st : AppState) (Q : string)
    (run : Run (ImageValue a)) :
  isSearching st = false ->
  nonEmpty (normalize Q) = true ->
  cache st !! normalize Q = None ->
  ∃ inv st2,
    handleSearchOf a c st Q run
    = ((settleOf a inv st2 (imageResult run) (sourcesResult run)).1,
       [GenerateProcessImage Q; FetchConstructionProcess Q]
         ++ (settleOf a inv st2 (imageResult run) (sourcesResult run)).2)
    ∧ searchQuery inv = Q
    ∧ normalizedQuery inv = normalize Q
    ∧ capturedImageUrl inv = imageUrl st
    ∧ fullText inv = joined (streamed run)
    ∧ textOf (searchResult st2) = joined (streamed run)
    ∧ cache st2 = cache st
    ∧ searchHistory st2 = searchHistory st
    ∧ imageUrl st2 = None
    ∧ error st2 = None
    ∧ imageError st2 = None.
Proof.
  intros Hs Hq Hc.
  destruct (enter_miss c st Q Hs Hq Hc)
    as (st1 & inv & Henter & Hi1 & Hi2 & Hi3 & Hi4 & Hr & Hu & He & Hie & _ & Hca & Hh).
  destruct (foldl_onTextStream (streamed run) inv st1)
    as (inv' & st2 & Hfold & Hq' & Hn' & Hu' & Hf' & Ht' & Hc' & Hh' & Hi' & He' & Hie' & _).
  exists inv', st2.
  rewrite Hq', Hn', Hu', Hf', Ht', Hc', Hh', Hi', He', Hie'.
  rewrite Hi1, Hi2, Hi3, Hi4, Hr, Hu, He, Hie, Hca, Hh.
  split_and!; try done.
  destruct a; cbn [ImageValue] in *;
    unfold handleSearchOf, App000.handleSearch, App001.handleSearch, runSearch;
    rewrite Henter, Hfold; simpl settleOf;
    by destruct (_ inv' st2 (imageResult run) (sourcesResult run)).
Qed.

(** A call of [handleSearch] runs the generators exactly when no search is
    in flight, the query is not blank and the cache has no entry for it. *)
Lemma handleSearch_runs_generators (a : Variant) (c : bool) (st : AppState)
    (Q : string) (run : Run (ImageValue a)) :
  FetchConstructionProcess Q ∈ (handleSearchOf a c st Q run).2
  <-> isSearching st = false
      ∧ nonEmpty (normalize Q) = true
      ∧ cache st !! normalize Q = None.
Proof.
  split.
  - destruct a; cbn [ImageValue] in *;
      unfold handleSearchOf, App000.handleSearch, App001.handleSearch, runSearch, enter;
      destruct (isSearching st); [by intros ?%elem_of_nil | | by intros ?%elem_of_nil |];
      destruct (nonEmpty (normalize Q)); cbn [negb];
      [| by intros ?%elem_of_nil | | by intros ?%elem_of_nil];
      destruct (cache st !! normalize Q);
      [by intros ?%elem_of_nil | done | by intros ?%elem_of_nil | done].
  - intros (Hs & Hq & Hc).
    destruct (handleSearch_miss a c st Q run Hs Hq Hc) as (inv & st2 & -> & _).
    cbn [snd]. apply elem_of_cons. right. apply elem_of_cons. by left.
Qed.

(** The text published at the end of the first component is the text
    accumulated in [fullText]. *)
Lemma published_text (prev : option SearchResult) (full : string) :
  textOf prev = full ->
  match prev with
  | Some p => if nonEmpty (text p) then text p else full
  | None => full
  end = full.
Proof.
  destruct prev as [p|]; simpl; [|done].
  intros <-. destruct (nonEmpty (text p)) eqn:H; [done|].
  by apply nonEmpty_false in H.
Qed.

(** Case analysis on the component and on the two settled promises. *)
Ltac settle_cases a run :=
  destruct a; cbn [ImageValue settleOf imageRef] in *;
  destruct (imageResult run) as [?img|?r] eqn:?Himg,
           (sourcesResult run) as [?srcs|?r] eqn:?Hsrc;
  unfold App000.settle, App001.settle; cbn -[updateHistory];
  repeat match goal with
         | |- context [if nonEmpty ?x then _ else _] =>
             destruct (nonEmpty x) eqn:?; cbn -[updateHistory]
         end.

(** C1. A search that misses the cache leaves an entry under the normalized
    query only if both its generators succeeded, and touches no other key.
    In particular, when the text succeeds and the image fails there is no
    entry afterwards, and the same query searched again calls both
    generators again. *)
Theorem partial_success_not_cached (a : Variant) (c : bool) (st : AppState)
    (Q : string) (run : Run (ImageValue a)) :
  isSearching st = false ->
  nonEmpty (normalize Q) = true ->
  cache st !! normalize Q = None ->
  let st' := (handleSearchOf a c st Q run).1 in
  (is_Some (cache st' !! normalize Q) ->
     ∃ img finalSources,
       imageResult run = Fulfilled img ∧ sourcesResult run = Fulfilled finalSources)
  ∧ (∀ k, k ≠ normalize Q -> cache st' !! k = cache st !! k)
  ∧ (∀ reason finalSources,
       imageResult run = Rejected reason ->
       sourcesResult run = Fulfilled finalSources ->
       cache st' !! normalize Q = None
       ∧ ∀ c' run', ∃ others,
           (handleSearchOf a c' st' Q run').2
           = GenerateProcessImage Q :: FetchConstructionProcess Q :: others).
Proof.
  intros Hs Hq Hc st'.
  destruct (handleSearch_miss a c st Q run Hs Hq Hc)
    as (inv & st2 & Hrun & Hi1 & Hi2 & Hi3 & Hi4 & Ht & Hca & Hh & Hu & He & Hie).
  assert (cache st' !! normalize Q = None
          ∨ ∃ img finalSources,
              imageResult run = Fulfilled img ∧ sourcesResult run = Fulfilled finalSources)
    as Hentry.
  { subst st'. rewrite Hrun. clear Hrun.
    settle_cases a run; rewrite ?Hi2;
      solve [right; by eauto | left; apply lookup_delete_eq]. }
  assert (isSearching st' = false) as Hs'.
  { subst st'. rewrite Hrun. clear Hrun.
    settle_cases a run; done. }
  split_and!.
  - intros [entry Hentry']. destruct Hentry as [Hnone | ?]; [congruence | done].
  - intros k Hk. subst st'. rewrite Hrun. clear Hrun. rewrite <- Hca.
    settle_cases a run;
      rewrite ?Hi2; by rewrite ?lookup_insert_ne, ?lookup_delete_ne.
  - intros reason finalSources Himg Hsrc.
    assert (cache st' !! normalize Q = None) as Hnone.
    { destruct Hentry as [? | (img & srcs & Himg' & _)]; [done | congruence]. }
    split; [done|]. intros c' run'.
    destruct (handleSearch_miss a c' st' Q run' Hs' Hq Hnone) as (inv' & st2' & -> & _).
    simpl. eauto.
Qed.


(** C4. On a search that misses the cache: when the report generator
    rejects, no search result stays published, not even the text streamed
    so far, and a text error is published, while an image that succeeded
    stays published; when only the image generator rejects, the streamed
    text and the final sources are published, no text error is set, and the
    image error is the only error. *)
Theorem failures_are_independent (a : Variant) (c : bool) (st : AppState)
    (Q : string) (run : Run (ImageValue a)) :
  isSearching st = false ->
  nonEmpty (normalize Q) = true ->
  cache st !! normalize Q = None ->
  let st' := (handleSearchOf a c st Q run).1 in
  (∀ reason,
     sourcesResult run = Rejected reason ->
     searchResult st' = None
     ∧ error st' = Some (errorMessage reason textFallback)
     ∧ ∀ img, imageResult run = Fulfilled img ->
         nonEmpty (imageRef a img) = true ->
         imageUrl st' = Some (imageRef a img) ∧ imageError st' = None)
  ∧ (∀ reason finalSources,
       imageResult run = Rejected reason ->
       sourcesResult run = Fulfilled finalSources ->
       searchResult st'
       = Some {| text := joined (streamed run); sources := finalSources |}
       ∧ error st' = None
       ∧ imageError st' = Some (errorMessage reason imageFallback)
       ∧ imageUrl st' = None).
Proof.
  intros Hs Hq Hc st'.
  destruct (handleSearch_miss a c st Q run Hs Hq Hc)
    as (inv & st2 & Hrun & Hi1 & Hi2 & Hi3 & Hi4 & Ht & Hca & Hh & Hu & He & Hie).
  pose proof (published_text (searchResult st2) (fullText inv)
                ltac:(by rewrite Ht, Hi4)) as Hpub.
  subst st'. rewrite Hrun. clear Hrun. rewrite <- Hi4.
  split.
  - intros reason Hsrc'. split_and!.
    + settle_cases a run; by simplify_eq.
    + settle_cases a run; by simplify_eq.
    + intros img' Himg' Husable.
      settle_cases a run; simplify_eq; try congruence; done.
  - intros reason finalSources Himg' Hsrc'.
    settle_cases a run; simplify_eq; by rewrite ?Hpub, ?Hu.
Qed.

(** ** The re-entrancy guard *)


Section Guard.

Context {V : Type}.

Variable settle :
  Invocation -> AppState -> Settled V Reason ->
  Settled (list GroundingChunk) Reason -> AppState * list Call.


Lemma steps_snoc (m : Machine) (evs : list Event) (ev : Event) :
  (steps settle m (evs ++ [ev])).1 = (step settle (steps settle m evs).1 ev).1.
Proof.
  unfold steps. rewrite foldl_snoc.
  by destruct (step settle (foldl _ (m, []) evs).1 ev).
Qed.



End Guard.


(** ** A whole search as a run of the machine *)

Section Uninterrupted.

Context {V : Type}.

Variable settle :
  Invocation -> AppState -> Settled V Reason ->
  Settled (list GroundingChunk) Reason -> AppState * list Call.

Lemma steps_acc (evs : list Event) (m : Machine) (calls : list Call) :
  foldl (fun acc ev => let '(m', cs) := step settle acc.1 ev in (m', acc.2 ++ cs))
        (m, calls) evs
  = ((steps settle m evs).1, calls ++ (steps settle m evs).2).
Proof.
  revert m calls. induction evs as [|ev evs IH]; intros m calls.
  - cbn. by rewrite app_nil_r.
  - unfold steps. cbn [foldl fst snd].
    destruct (step settle m ev) as [m' cs]. rewrite (IH m' (calls ++ cs)).
    rewrite (IH m' ([] ++ cs)). cbn [fst snd]. by rewrite app_nil_l, app_assoc.
Qed.

Lemma steps_cons (m : Machine) (ev : Event) (evs : list Event) :
  steps settle m (ev :: evs)
  = ((steps settle (step settle m ev).1 evs).1,
     (step settle m ev).2 ++ (steps settle (step settle m ev).1 evs).2).
Proof.
  unfold steps at 1. cbn [foldl fst snd].
  destruct (step settle m ev) as [m' cs]. by rewrite steps_acc.
Qed.

Lemma steps_app (m : Machine) (evs1 evs2 : list Event) :
  steps settle m (evs1 ++ evs2)
  = ((steps settle (steps settle m evs1).1 evs2).1,
     (steps settle m evs1).2 ++ (steps settle (steps settle m evs1).1 evs2).2).
Proof.
  revert m. induction evs1 as [|ev evs1 IH]; intros m.
  - rewrite app_nil_l. change (steps settle m []) with (m, @nil Call).
    cbn [fst snd]. by destruct (steps settle m evs2).
  - rewrite <- app_comm_cons, !steps_cons, IH. cbn [fst snd]. by rewrite app_assoc.
Qed.

(** The chunks of the only search in flight, delivered one after the other. *)
Lemma steps_chunks (chunks : list (option string)) (st : AppState) (inv : Invocation) :
  steps settle {| app := st; inflight := [inv] |} (TextChunk 0 <$> chunks)
  = ({| app := (foldl onTextStream (inv, st) chunks).2;
        inflight := [(foldl onTextStream (inv, st) chunks).1] |}, []).
Proof.
  revert st inv. induction chunks as [|chunk chunks IH]; intros st inv; [done|].
  rewrite fmap_cons, steps_cons. cbn [step inflight app lookup list_lookup].
  destruct (onTextStream (inv, st) chunk) as [inv' st'] eqn:Hon.
  cbn [fst snd]. change (<[0:=inv']> [inv]) with [inv'].
  rewrite IH. cbn [foldl fst snd]. by rewrite Hon.
Qed.

(** A whole call of [handleSearch] is the run of the machine, from a state
    without a search in flight, on the call, the chunks and the settlement
    of that search, with no other event in between. *)
Lemma runSearch_steps (c : bool) (st : AppState) (Q : string) (run : Run V) :
  steps settle {| app := st; inflight := [] |}
    (Search c Q :: (TextChunk 0 <$> streamed run)
       ++ [BothSettled 0 (imageResult run) (sourcesResult run)])
  = ({| app := (runSearch settle c st Q run).1; inflight := [] |},
     (runSearch settle c st Q run).2).
Proof.
  rewrite steps_cons. unfold runSearch. cbn [step app inflight].
  assert (∀ st',
    steps settle {| app := st'; inflight := [] |}
      ((TextChunk 0 <$> streamed run)
         ++ [BothSettled 0 (imageResult run) (sourcesResult run)])
    = ({| app := st'; inflight := [] |}, [])) as Hidle.
  { intros st'. induction (streamed run) as [|chunk chunks IH].
    - rewrite fmap_nil, app_nil_l, steps_cons. cbn [step inflight app].
      by rewrite lookup_nil.
    - rewrite fmap_cons, <- app_comm_cons, steps_cons. cbn [step inflight app].
      rewrite lookup_nil. cbn [fst snd]. by rewrite IH. }
  destruct (enter c st Q) as [| st1 | st1 inv]; cbn [fst snd app_nil_l].
  - by rewrite Hidle.
  - by rewrite Hidle.
  - rewrite app_nil_l, steps_app, steps_chunks, steps_cons.
    cbn [fst snd step inflight app lookup list_lookup].
    destruct (foldl onTextStream (inv, st1) (streamed run)) as [inv' st2]. cbn [fst snd].
    destruct (settle inv' st2 (imageResult run) (sourcesResult run)) as [st3 calls].
    cbn [fst snd]. change (steps settle ?m []) with (m, @nil Call).
    cbn [fst snd]. by rewrite app_nil_l, app_nil_r.
Qed.

End Uninterrupted.

(** ** The cache *)

Lemma settleOf_entriesHaveImage (a : Variant) (inv : Invocation) (st : AppState)
    (img : Settled (ImageValue a) Reason) (srcs : Settled (list GroundingChunk) Reason) :
  entriesHaveImage st -> entriesHaveImage (settleOf a inv st img srcs).1.
Proof.
  intros Hst k entry.
  destruct a; cbn [ImageValue settleOf] in *; unfold App000.settle, App001.settle;
    destruct img as [img|r], srcs as [srcs|r']; cbn -[updateHistory];
    repeat match goal with
           | |- context [if nonEmpty ?x then _ else _] =>
               destruct (nonEmpty x) eqn:?; cbn -[updateHistory]
           end;
    try (intros [_ Hk]%lookup_delete_Some; by eapply Hst);
    try (intros [[_ <-] | [_ Hk]]%lookup_insert_Some; [by eauto | by eapply Hst]).
Qed.

Lemma step_entriesHaveImage (a : Variant) (m : Machine) (ev : Event) :
  entriesHaveImage (app m) -> entriesHaveImage (app (step (settleOf a) m ev).1).
Proof.
  intros Hm. destruct ev as [c Q | i chunk | i img srcs]; cbn [step].
  - unfold enter. destruct (isSearching (app m)); [exact Hm|].
    destruct (negb (nonEmpty (normalize Q))); [exact Hm|].
    destruct (cache (app m) !! normalize Q); exact Hm.
  - destruct (inflight m !! i) as [inv|]; [|exact Hm].
    unfold onTextStream. by destruct (capturedIsLoading inv).
  - destruct (inflight m !! i) as [inv|]; [|exact Hm].
    pose proof (settleOf_entriesHaveImage a inv (app m) img srcs Hm) as H.
    by destruct (settleOf a inv (app m) img srcs).
Qed.

(** In every reachable state, each entry of the cache was stored with the
    image of a search whose image generator succeeded. *)
Lemma reachable_entriesHaveImage (a : Variant) (m : Machine) :
  reachable (settleOf a) m -> entriesHaveImage (app m).
Proof.
  intros [evs <-]. induction evs as [|ev evs IH] using rev_ind.
  - intros k entry Hk. cbn in Hk. by rewrite lookup_empty in Hk.
  - rewrite steps_snoc. by apply step_entriesHaveImage.
Qed.

(** ** Reachable states *)

Lemma settleOf_wellFormed (a : Variant) (inv : Invocation) (st : AppState)
    (img : Settled (ImageValue a) Reason) (srcs : Settled (list GroundingChunk) Reason) :
  nonEmpty (normalizedQuery inv) = true ->
  (∀ k, is_Some (cache st !! k) -> nonEmpty k = true) ->
  isSearching (settleOf a inv st img srcs).1 = false
  ∧ ∀ k, is_Some (cache (settleOf a inv st img srcs).1 !! k) -> nonEmpty k = true.
Proof.
  intros Hinv Hst.
  destruct a; cbn [ImageValue settleOf] in *; unfold App000.settle, App001.settle;
    destruct img as [img|r], srcs as [srcs|r']; cbn -[updateHistory];
    repeat match goal with
           | |- context [if nonEmpty ?x then _ else _] =>
               destruct (nonEmpty x) eqn:?; cbn -[updateHistory]
           end;
    (split; [done|]); intros k;
    try (intros [entry [_ Hk]%lookup_delete_Some]; by apply Hst);
    destruct (decide (normalizedQuery inv = k)) as [<- | Hne]; try done;
    rewrite lookup_insert_ne by done; apply Hst.
Qed.

Lemma step_wellFormed (a : Variant) (m : Machine) (ev : Event) :
  wellFormed m -> wellFormed (step (settleOf a) m ev).1.
Proof.
  intros Hm. pose proof Hm as (Hidle & Hinv & Hkeys).
  destruct ev as [c Q | i chunk | i img srcs]; cbn [step].
  - unfold enter. destruct (isSearching (app m)) eqn:Hs; [exact Hm|].
    destruct (nonEmpty (normalize Q)) eqn:Hq; cbn [negb]; [|exact Hm].
    destruct (cache (app m) !! normalize Q); unfold wellFormed; simpl;
      split_and!; try done.
    + by intros [_ ?]%app_eq_nil.
    + intros inv [Hin | ->%list_elem_of_singleton]%elem_of_app; [by apply Hinv | done].
  - destruct (inflight m !! i) as [inv|] eqn:Hi; [|exact Hm].
    unfold onTextStream, wellFormed. cbn [fst snd app inflight]. split_and!.
    + intros Hnil. apply (f_equal length) in Hnil. rewrite length_insert in Hnil.
      apply lookup_lt_Some in Hi. cbn in Hnil. lia.
    + intros inv' [j Hj]%list_elem_of_lookup.
      destruct (decide (i = j)) as [<- | Hne].
      * rewrite list_lookup_insert_eq in Hj by (by eapply lookup_lt_Some).
        injection Hj as <-. cbn. apply Hinv. by eapply list_elem_of_lookup_2.
      * rewrite list_lookup_insert_ne in Hj by done.
        apply Hinv. by eapply list_elem_of_lookup_2.
    + by destruct (capturedIsLoading inv).
  - destruct (inflight m !! i) as [inv|] eqn:Hi; [|exact Hm].
    assert (nonEmpty (normalizedQuery inv) = true) as Hne.
    { apply Hinv. by eapply list_elem_of_lookup_2. }
    destruct (settleOf_wellFormed a inv (app m) img srcs Hne Hkeys) as [Hs Hk].
    destruct (settleOf a inv (app m) img srcs) as [st' calls]. cbn in *.
    split_and!; try done.
    intros inv' Hin. apply Hinv. eapply elem_of_sublist; [exact Hin|].
    apply sublist_delete.
Qed.

(** Every reachable state of either component is well formed. *)
Lemma reachable_wellFormed (a : Variant) (m : Machine) :
  reachable (settleOf a) m -> wellFormed m.
Proof.
  intros [evs <-]. induction evs as [|ev evs IH] using rev_ind.
  - split_and!; [done | by intros inv ?%elem_of_nil |].
    intros k [entry Hk]. cbn in Hk. by rewrite lookup_empty in Hk.
  - rewrite steps_snoc. by apply step_wellFormed.
Qed.

(** In a reachable state without a search in flight, a query that has a
    cache entry meets the conditions under which [handleSearch] looks the
    cache up. *)
Lemma reachable_idle_hit (a : Variant) (m : Machine) (Q : string) :
  reachable (settleOf a) m ->
  inflight m = [] ->
  is_Some (cache (app m) !! normalize Q) ->
  isSearching (app m) = false ∧ nonEmpty (normalize Q) = true.
Proof.
  intros (Hidle & _ & Hkeys)%reachable_wellFormed Hnil Hsome. split; auto.
Qed.

(** ** The history *)

Lemma updateHistory_length (Q n : string) (prev : list string) :
  (length (updateHistory Q n prev) ≤ 3)%nat.
Proof. unfold updateHistory. rewrite length_take. lia. Qed.

(** The query just searched is the first entry. *)
Lemma updateHistory_head (Q n : string) (prev : list string) :
  head (updateHistory Q n prev) = Some Q.
Proof. reflexivity. Qed.

(** The entries kept from before stay in their order, after the new one. *)
Lemma updateHistory_sublist (Q n : string) (prev : list string) :
  updateHistory Q n prev `sublist_of` Q :: prev.
Proof.
  unfold updateHistory. etrans; [apply sublist_take|].
  apply sublist_skip, sublist_filter.
Qed.

(** A query without surrounding white space keeps the history free of
    duplicates up to case, and replaces its former occurrence. *)
Lemma updateHistory_distinct (Q : string) (prev : list string) :
  trim Q = Q ->
  caseInsensitiveDistinct prev ->
  caseInsensitiveDistinct (updateHistory Q (normalize Q) prev).
Proof.
  intros Htrim Hprev. unfold caseInsensitiveDistinct, updateHistory, normalize.
  rewrite Htrim.
  eapply sublist_NoDup; [|apply fmap_sublist, sublist_take].
  rewrite fmap_cons. constructor.
  - intros (q & Hq & Hin)%list_elem_of_fmap.
    apply list_elem_of_filter in Hin as [Hne _]. congruence.
  - eapply sublist_NoDup; [exact Hprev|]. apply fmap_sublist, sublist_filter.
Qed.

(** Searching again, without surrounding white space, a query that the
    history holds up to case does not make the history longer. *)
Lemma updateHistory_no_growth (Q q : string) (prev : list string) :
  trim Q = Q ->
  q ∈ prev ->
  toLowerCase q = toLowerCase Q ->
  (length (updateHistory Q (normalize Q) prev) ≤ length prev)%nat.
Proof.
  intros Htrim Hin Hq. unfold updateHistory, normalize. rewrite Htrim.
  rewrite length_take. cbn [length].
  pose proof (length_filter_lt (fun q => toLowerCase q ≠ toLowerCase Q) prev q Hin) as Hlt.
  assert (¬ toLowerCase q ≠ toLowerCase Q) as Hnot by (intros Hne; by apply Hne).
  specialize (Hlt Hnot). lia.
Qed.

Section HistoryBound.

Context {V : Type}.

Variable settle :
  Invocation -> AppState -> Settled V Reason ->
  Settled (list GroundingChunk) Reason -> AppState * list Call.

(** The continuation writes the history through [updateHistory] only. *)
Hypothesis settle_history :
  ∀ inv st img srcs,
    (length (searchHistory st) ≤ 3)%nat ->
    (length (searchHistory (settle inv st img srcs).1) ≤ 3)%nat.

Lemma step_history_bound (m : Machine) (ev : Event) :
  (length (searchHistory (app m)) ≤ 3)%nat ->
  (length (searchHistory (app (step settle m ev).1)) ≤ 3)%nat.
Proof.
  intros Hm. destruct ev as [c Q | i chunk | i img srcs]; cbn [step].
  - unfold enter. destruct (isSearching (app m)); [exact Hm|].
    destruct (negb (nonEmpty (normalize Q))); [exact Hm|].
    destruct (cache (app m) !! normalize Q); cbn -[updateHistory]; [|exact Hm].
    apply updateHistory_length.
  - destruct (inflight m !! i) as [inv|]; [|exact Hm].
    unfold onTextStream. by destruct (capturedIsLoading inv).
  - destruct (inflight m !! i) as [inv|]; [|exact Hm].
    specialize (settle_history inv (app m) img srcs Hm).
    by destruct (settle inv (app m) img srcs).
Qed.

Lemma reachable_history_bound (m : Machine) :
  reachable settle m -> (length (searchHistory (app m)) ≤ 3)%nat.
Proof.
  intros [evs <-]. induction evs as [|ev evs IH] using rev_ind.
  - simpl. lia.
  - rewrite steps_snoc. by apply step_history_bound.
Qed.

End HistoryBound.

Lemma settleOf_history (a : Variant) (inv : Invocation) (st : AppState)
    (img : Settled (ImageValue a) Reason) (srcs : Settled (list GroundingChunk) Reason) :
  (length (searchHistory st) ≤ 3)%nat ->
  (length (searchHistory (settleOf a inv st img srcs).1) ≤ 3)%nat.
Proof.
  intros Hst.
  destruct a; cbn [ImageValue settleOf] in *; unfold App000.settle, App001.settle;
    destruct img as [img|r], srcs as [srcs|r']; cbn -[updateHistory];
    repeat match goal with
           | |- context [if nonEmpty ?x then _ else _] =>
               destruct (nonEmpty x); cbn -[updateHistory]
           end;
    try exact Hst; apply updateHistory_length.
Qed.

(** In every reachable state of either component the history has at most
    three entries. *)
Lemma history_at_most_three (a : Variant) (m : Machine) :
  reachable (settleOf a) m -> (length (searchHistory (app m)) ≤ 3)%nat.
Proof. apply reachable_history_bound, settleOf_history. Qed.

(** C6. The query ["viga "], with a trailing space, searched twice, is in
    the history twice; searched as ["Viga "] and then as ["viga "], it
    leaves two entries that are equal up to case.  The filter compares the
    lower-cased entries with the trimmed query, and the entry stored is the
    query as typed. *)
Theorem history_keeps_untrimmed_duplicates (a : Variant) :
  historyAfter a ["viga "; "viga "] = ["viga "; "viga "]
  ∧ historyAfter a ["Viga "; "viga "] = ["viga "; "Viga "]
  ∧ ¬ caseInsensitiveDistinct (historyAfter a ["Viga "; "viga "])
  ∧ updateHistory "viga " (normalize "viga ") ["viga "] = ["viga "; "viga "]
  ∧ historyAfter a ["viga"; "viga"] = ["viga"].
Proof.
  assert (¬ NoDup ["viga "; "viga "]) as Hdup.
  { intros Hnd. apply NoDup_cons in Hnd as [Hnot _]. apply Hnot. by left. }
  destruct a; split_and!; try (vm_compute; reflexivity).
  - by vm_compute.
  - by vm_compute.
Qed.

(** ** The theorems at concrete searches *)

Lemma partial_success_not_cached_witness :
  cache (handleSearchOf FirstApp false initialState "Viga" (imageFailedRun FirstApp)).1
    !! normalize "Viga" = None.
Proof.
  refine (proj1 (proj2 (proj2
            (partial_success_not_cached FirstApp false initialState "Viga"
               (imageFailedRun FirstApp) _ _ _)) _ _ _ _)); reflexivity.
Defined.


Lemma failures_are_independent_witness :
  searchResult
    (handleSearchOf FirstApp false initialState "Viga" (textFailedRun FirstApp)).1
  = None.
Proof.
  refine (proj1 (proj1
            (failures_are_independent FirstApp false initialState "Viga"
               (textFailedRun FirstApp) _ _ _) _ _)); reflexivity.
Defined.


(** * Further properties *)

(** ** The typed service *)

(** X1. A thrown object that has a string message always leaves
    [handleApiError] as an [ApiError]; when the message mentions a network
    failure it is a [NetworkError], whatever status the object carries. *)
Theorem errors_with_message_are_classified
    (ToNumber : string -> option Z) (o : ForeignError) (m : string) :
  fe_message o = JsString m ->
  (∃ a, Service.handleApiError ToNumber (ThrownObject o) = RaisedApiError a)
  ∧ (Service.isNetworkMessage m = true ->
     Service.handleApiError ToNumber (ThrownObject o) = RaisedApiError newNetworkError).
Proof.
  intros Hm. split.
  - by eapply handleApiError_classifies.
  - intros Hn. by eapply handleApiError_network.
Qed.

Lemma errors_with_message_are_classified_witness :
  Service.handleApiError (fun _ => None)
    (ThrownObject {| fe_message := JsString "TypeError: Failed to fetch";
                     fe_httpStatus := JsNumber 400;
                     fe_status := JsUndefined;
                     fe_e := EValue JsUndefined |})
  = RaisedApiError newNetworkError.
Proof.
  refine (proj2 (errors_with_message_are_classified (fun _ => None) _
                   "TypeError: Failed to fetch" _) _); reflexivity.
Defined.

(** X2. For a thrown object whose message is not a network message and
    whose status is a number: 400 gives [InvalidQueryError], 500 and more
    give [ServiceUnavailableError], and every other number, 0 included,
    gives the generic [ApiError]. *)
Theorem numeric_status_table
    (ToNumber : string -> option Z) (o : ForeignError) (m : string) (n : Z) :
  fe_message o = JsString m ->
  Service.isNetworkMessage m = false ->
  Service.statusOf o = JsNumber n ->
  Service.handleApiError ToNumber (ThrownObject o)
  = RaisedApiError
      (if (n =? 400)%Z then Service.invalidQueryError
       else if (500 <=? n)%Z then newServiceUnavailableError
       else Service.unexpectedError).
Proof.
  intros Hm Hn Hs. unfold Service.handleApiError, Service.classifyStatus.
  rewrite Hm, Hn, Hs. f_equal.
  destruct (Z.eqb_spec n 400) as [-> | Hne]; [done|].
  assert (strictEq (JsNumber n) (JsNumber 400) = false) as ->.
  { unfold strictEq. apply bool_decide_eq_false. by intros [=]. }
  assert (strictEq (JsNumber n) (JsString "INVALID_ARGUMENT") = false) as -> by done.
  assert (strictEq (JsNumber n) (JsString "UNAVAILABLE") = false) as -> by done.
  cbn [truthy orb Service.geNumber]. rewrite orb_false_r.
  destruct (Z.eqb_spec n 0) as [-> | Hz]; [done|].
  cbn [negb]. by destruct (500 <=? n)%Z.
Qed.

Lemma numeric_status_table_witness :
  Service.handleApiError (fun _ => None)
    (ThrownObject {| fe_message := JsString "Not Found";
                     fe_httpStatus := JsUndefined;
                     fe_status := JsNumber 404;
                     fe_e := EValue JsUndefined |})
  = RaisedApiError Service.unexpectedError.
Proof.
  refine (numeric_status_table (fun _ => None) _ "Not Found" 404 _ _ _); reflexivity.
Defined.

Lemma Service_consume_sources (chunks : list Chunk)
    (acc : list (option string) * list RawGroundingChunk) :
  (foldl Service.consume acc chunks).2
  = default acc.2 (last (omap chunk_groundingChunks chunks)).
Proof.
  revert acc. induction chunks as [|chunk chunks IH]; intros acc; [done|].
  cbn [foldl]. rewrite IH. cbn [omap list_omap Service.consume snd].
  destruct (chunk_groundingChunks chunk) as [g|]; [|done].
  destruct (omap chunk_groundingChunks chunks) as [|g' gs] eqn:Hrest; [done|].
  rewrite last_cons_cons. destruct (last (g' :: gs)) eqn:Hlast; [done|].
  by apply last_None in Hlast.
Qed.

(** X3. With an API key, [fetchConstructionProcess] of
    [services/geminiService.ts] calls [onStream] once per chunk, in order,
    with the text of the chunk as it is; when the stream ends, it resolves
    with the citation metadata of the last chunk that carries some, and
    when the stream throws, it rejects with the classified error. *)
Theorem Service_fetch_run
    (ToNumber : string -> option Z) (apiKey : option string) (key : string)
    (stream : ResultStream) :
  Service.getGenAI apiKey = inr key ->
  Service.fetchConstructionProcess ToNumber apiKey (Returns stream)
  = {| onStreamCalls := chunk_text <$> stream_chunks stream;
       fetchSettled :=
         match stream_end stream with
         | StreamDone => Fulfilled (lastMetadata (stream_chunks stream))
         | StreamThrows err => Rejected (Service.handleApiError ToNumber err)
         end |}.
Proof.
  intros Hkey. unfold Service.fetchConstructionProcess. rewrite Hkey.
  pose proof (Service_consume_calls (stream_chunks stream) ([], [])) as Hcalls.
  pose proof (Service_consume_sources (stream_chunks stream) ([], [])) as Hsrc.
  destruct (foldl Service.consume ([], []) (stream_chunks stream)) as [calls sources].
  cbn [fst snd] in *. by rewrite Hcalls, Hsrc.
Qed.

Lemma Service_fetch_run_witness :
  fetchSettled (Service.fetchConstructionProcess (fun _ => None) (Some "key")
                  (Returns streamSparse))
  = Fulfilled [citationA].
Proof.
  refine (f_equal fetchSettled
            (Service_fetch_run (fun _ => None) (Some "key") "key" streamSparse _)).
  reflexivity.
Defined.

(** X4. Without an API key (absent or empty), neither generator of
    [services/geminiService.ts] reaches the provider: both reject with
    [NoApiKeyError] and [onStream] is never called, whatever the provider
    would have replied. *)
Theorem Service_missing_key
    (ToNumber : string -> option Z) (apiKey : option string)
    (resultStream : Provider ResultStream) (response : Provider GenerateImagesResponse) :
  apiKey = None ∨ apiKey = Some "" ->
  Service.fetchConstructionProcess ToNumber apiKey resultStream
  = {| onStreamCalls := []; fetchSettled := Rejected (RaisedApiError newNoApiKeyError) |}
  ∧ Service.generateProcessImage ToNumber apiKey response
    = Rejected (RaisedApiError newNoApiKeyError).
Proof. by intros [-> | ->]. Qed.

Lemma Service_missing_key_witness :
  Service.generateProcessImage (fun _ => None) None
    (Returns {| generatedImages := None |})
  = Rejected (RaisedApiError newNoApiKeyError).
Proof.
  refine (proj2 (Service_missing_key (fun _ => None) None
                   (Returns streamSparse) _ _)).
  by left.
Defined.

(** X5. Every image that [generateProcessImage] of
    [services/geminiService.ts] resolves with is a non-empty data URL from
    which [handlePrintImage] reads the format [JPEG]. *)
Theorem generated_image_format
    (ToNumber : string -> option Z) (apiKey : option string)
    (response : Provider GenerateImagesResponse) (imageUrl : string) :
  Service.generateProcessImage ToNumber apiKey response = Fulfilled imageUrl ->
  nonEmpty imageUrl = true ∧ imageFormat imageUrl = "JPEG".
Proof.
  unfold Service.generateProcessImage.
  destruct (Service.getGenAI apiKey); [done|].
  destruct response as [response | err]; [|done].
  destruct (Service.firstImageBytes response) as [bytes|]; [|done].
  by intros [= <-].
Qed.

Lemma generated_image_format_witness :
  imageFormat "data:image/jpeg;base64,AAAA" = "JPEG".
Proof.
  refine (proj2 (generated_image_format (fun _ => None) (Some "k")
            (Returns {| generatedImages :=
                          Some [ {| image := Some {| imageBytes := Some "AAAA" |} |} ] |})
            _ _)).
  reflexivity.
Defined.

(** ** The deduplicating service *)




(** X7. The deduplicating [fetchConstructionProcess] calls [onStream] once
    for each chunk whose text is not empty, with that text, in order, and
    for no other chunk; when the provider call or the stream throws, it
    rejects with one and the same message, after the calls for the chunks
    delivered before. *)
Theorem ServicePro_onStream_once_per_text (responseStream : Provider ResultStream) :
  onStreamCalls (ServicePro.fetchConstructionProcess responseStream)
  = match responseStream with
    | Returns stream => omap textIncrement (stream_chunks stream)
    | Throws _ => []
    end
  ∧ Forall (fun textChunk => textChunk ≠ "")
      (onStreamCalls (ServicePro.fetchConstructionProcess responseStream))
  ∧ (fetchSettled (ServicePro.fetchConstructionProcess responseStream)
     = Rejected ServicePro.textFailure
     <-> match responseStream with
         | Returns stream => stream_end stream ≠ StreamDone
         | Throws _ => True
         end).
Proof.
  assert (∀ chunks, Forall (fun t => t ≠ "") (omap textIncrement chunks)) as Hne.
  { intros chunks. apply Forall_forall. intros t (chunk & _ & Ht)%list_elem_of_omap.
    unfold textIncrement in Ht. destruct (chunk_text chunk) as [t'|]; [|done].
    destruct (nonEmpty t') eqn:Hn; [|done]. injection Ht as <-.
    by apply nonEmpty_true. }
  destruct responseStream as [stream | err].
  - pose proof (ServicePro_onStream stream) as Hcalls. rewrite Hcalls.
    split_and!; [done | apply Hne |].
    unfold ServicePro.fetchConstructionProcess.
    destruct (foldl ServicePro.consume ([], []) (stream_chunks stream)).
    cbn [fetchSettled]. destruct (stream_end stream); split; done.
  - split_and!; [done | constructor | done].
Qed.

(** ** The components *)

(** X8. Whatever the sequence of searches, chunks and settlements, the
    history of either component never holds more than three entries. *)
Theorem history_never_exceeds_three (a : Variant) (evs : list Event) :
  (length (searchHistory (app (steps (settleOf a) start evs).1)) ≤ 3)%nat.
Proof. apply (history_at_most_three a). by exists evs. Qed.

(** X9. For a query without surrounding white space, the update of the
    history puts the query first, keeps the history free of duplicates up
    to case, and does not lengthen it when it already held the query up to
    case. *)
Theorem trimmed_query_moves_to_front (Q : string) (prev : list string) :
  trim Q = Q ->
  caseInsensitiveDistinct prev ->
  head (updateHistory Q (normalize Q) prev) = Some Q
  ∧ caseInsensitiveDistinct (updateHistory Q (normalize Q) prev)
  ∧ (∀ q, q ∈ prev -> toLowerCase q = toLowerCase Q ->
       (length (updateHistory Q (normalize Q) prev) ≤ length prev)%nat).
Proof.
  intros Htrim Hprev. split_and!.
  - apply updateHistory_head.
  - by apply updateHistory_distinct.
  - intros q Hin Hq. by eapply updateHistory_no_growth.
Qed.

Lemma trimmed_query_moves_to_front_witness :
  head (updateHistory "VIGA" (normalize "VIGA") ["muro"; "viga"; "losa"]) = Some "VIGA"
  ∧ caseInsensitiveDistinct (updateHistory "VIGA" (normalize "VIGA") ["muro"; "viga"; "losa"]).
Proof.
  refine ((fun H => conj (proj1 H) (proj1 (proj2 H)))
            (trimmed_query_moves_to_front "VIGA" ["muro"; "viga"; "losa"] _ _)).
  - reflexivity.
  - unfold caseInsensitiveDistinct.
    apply (bool_decide_unpack (NoDup (toLowerCase <$> ["muro"; "viga"; "losa"]))).
    vm_compute. exact I.
Defined.

(** X10. Whatever the sequence of events, every entry of the cache of either
    component sits under a non-blank key and holds a non-empty image
    reference: nothing is cached for a search whose image failed. *)
Theorem cache_entries_are_complete (a : Variant) (evs : list Event)
    (k : string) (entry : CacheEntry) :
  cache (app (steps (settleOf a) start evs).1) !! k = Some entry ->
  nonEmpty k = true
  ∧ ∃ url, cachedImageUrl entry = Some url ∧ nonEmpty url = true.
Proof.
  intros Hk.
  assert (reachable (settleOf a) (steps (settleOf a) start evs).1) as Hm by (by exists evs).
  split.
  - destruct (reachable_wellFormed a _ Hm) as (_ & _ & Hkeys). apply Hkeys. by eexists.
  - by eapply (reachable_entriesHaveImage a _ Hm).
Qed.

Lemma cache_entries_are_complete_witness :
  ∃ url,
    cachedImageUrl
      {| result := {| text := "# Viga"; sources := [] |}; cachedImageUrl := Some "blob:1" |}
    = Some url ∧ nonEmpty url = true.
Proof.
  refine (proj2 (cache_entries_are_complete SecondApp
            [Search false "Viga"; TextChunk 0 (Some "# Viga");
             BothSettled 0 (Fulfilled (goodImage SecondApp)) (Fulfilled [])]
            "viga" _ _)).
  vm_compute. reflexivity.
Defined.

Lemma settleOf_flags (a : Variant) (inv : Invocation) (st : AppState)
    (img : Settled (ImageValue a) Reason) (srcs : Settled (list GroundingChunk) Reason) :
  isSearching (settleOf a inv st img srcs).1 = false
  ∧ isLoading (settleOf a inv st img srcs).1 = false
  ∧ isImageLoading (settleOf a inv st img srcs).1 = false.
Proof.
  destruct a; cbn [ImageValue settleOf] in *; unfold App000.settle, App001.settle;
    destruct img as [img|r], srcs as [srcs|r']; cbn -[updateHistory];
    repeat match goal with
           | |- context [if nonEmpty ?x then _ else _] =>
               destruct (nonEmpty x) eqn:?; cbn -[updateHistory]
           end; done.
Qed.

Lemma step_idleFlagsClear (a : Variant) (m : Machine) (ev : Event) :
  idleFlagsClear m -> idleFlagsClear (step (settleOf a) m ev).1.
Proof.
  intros Hm. destruct ev as [c Q | i chunk | i img srcs]; cbn [step].
  - unfold enter. destruct (isSearching (app m)) eqn:Hs; [exact Hm|].
    destruct (negb (nonEmpty (normalize Q))); [exact Hm|].
    destruct (cache (app m) !! normalize Q); unfold idleFlagsClear; simpl.
    + intros _. by rewrite Hs.
    + by intros [_ ?]%app_eq_nil.
  - destruct (inflight m !! i) as [inv|] eqn:Hi; [|exact Hm].
    unfold onTextStream, idleFlagsClear. cbn [fst snd app inflight].
    intros Hnil. apply (f_equal length) in Hnil. rewrite length_insert in Hnil.
    apply lookup_lt_Some in Hi. cbn in Hnil. lia.
  - destruct (inflight m !! i) as [inv|] eqn:Hi; [|exact Hm].
    pose proof (settleOf_flags a inv (app m) img srcs) as Hflags.
    destruct (settleOf a inv (app m) img srcs) as [st' calls]. by intros _.
Qed.

(** X11. Whatever the sequence of events, once no search is in flight none
    of [isSearching], [isLoading] and [isImageLoading] is left set in either
    component. *)
Theorem no_flag_left_set (a : Variant) (evs : list Event) :
  inflight (steps (settleOf a) start evs).1 = [] ->
  isSearching (app (steps (settleOf a) start evs).1) = false
  ∧ isLoading (app (steps (settleOf a) start evs).1) = false
  ∧ isImageLoading (app (steps (settleOf a) start evs).1) = false.
Proof.
  induction evs as [|ev evs IH] using rev_ind; [done|].
  rewrite steps_snoc. by apply step_idleFlagsClear.
Qed.

Lemma no_flag_left_set_witness :
  isLoading
    (app (steps (settleOf FirstApp) start
            [Search true "Viga"; TextChunk 0 None;
             BothSettled 0 (Rejected (reasonOf newNetworkError))
                           (Rejected (reasonOf newNetworkError))]).1)
  = false.
Proof.
  refine (proj1 (proj2 (no_flag_left_set FirstApp _ _))). reflexivity.
Defined.

Lemma trimStart_allWhiteSpace (s : string) :
  allWhiteSpace s = true -> trimStart s = "".
Proof.
  induction s as [|c s IH]; [done|]. cbn.
  destruct (isWhiteSpace c); [exact IH | done].
Qed.

(** X12. A query made of white space only, the empty query included, is
    ignored by [handleSearch] of either component: no generator is called
    and nothing is written, whatever the state. *)
Theorem blank_query_is_ignored (a : Variant) (c : bool) (st : AppState)
    (Q : string) (run : Run (ImageValue a)) :
  allWhiteSpace Q = true ->
  handleSearchOf a c st Q run = (st, []).
Proof.
  intros HQ.
  assert (normalize Q = "") as Hn.
  { unfold normalize, trim. by rewrite trimStart_allWhiteSpace. }
  destruct a; unfold handleSearchOf, App000.handleSearch, App001.handleSearch,
    runSearch, enter; rewrite Hn; by destruct (isSearching st).
Qed.

Lemma blank_query_is_ignored_witness :
  handleSearchOf FirstApp false initialState "   " (goodRun FirstApp) = (initialState, []).
Proof.
  refine (blank_query_is_ignored FirstApp false initialState "   " (goodRun FirstApp) _).
  reflexivity.
Defined.

Lemma onTextStream_published (chunks : list (option string)) (chunk : option string)
    (inv : Invocation) (st : AppState) :
  let r := foldl onTextStream (inv, st) (chunk :: chunks) in
  searchResult r.2
  = Some {| text := textOf (searchResult st) +:+ joined (chunk :: chunks);
            sources := match searchResult st with Some p => sources p | None => [] end |}
  ∧ isLoading r.2 = (if capturedIsLoading inv then false else isLoading st)
  ∧ isImageLoading r.2 = isImageLoading st
  ∧ fullText r.1 = fullText inv +:+ joined (chunk :: chunks).
Proof.
  revert chunk inv st. induction chunks as [|next chunks IH]; intros chunk inv st.
  - cbn [foldl]. unfold onTextStream. cbn -[String.append].
    change (joined [chunk]) with (orEmpty chunk +:+ "").
    rewrite append_nil_r. unfold textOf.
    by destruct (capturedIsLoading inv).
  - cbn [foldl].
    destruct (onTextStream (inv, st) chunk) as [inv1 st1] eqn:Hon.
    specialize (IH next inv1 st1). cbn [foldl] in IH.
    destruct IH as (Hres & Hload & Himg & Hfull).
    cbn zeta. rewrite Hres, Hload, Himg, Hfull.
    unfold onTextStream in Hon. injection Hon as <- <-.
    change (joined (chunk :: next :: chunks))
      with (orEmpty chunk +:+ joined (next :: chunks)).
    cbn -[String.append joined]. rewrite !append_assoc. unfold textOf.
    by destruct (capturedIsLoading inv).
Qed.

(** X13. While the text streams in either component, the published result
    holds the concatenation of the chunks received so far, a missing chunk
    text counting as empty, with no source yet, and the image stays marked
    as loading.  [isLoading] is cleared by the first chunk only if the
    callback was built by a render in which [isLoading] was set; otherwise
    it stays set until the search settles. *)
Theorem streaming_publishes_the_text_so_far (c : bool) (st st1 : AppState)
    (Q : string) (inv : Invocation) (chunk : option string) (chunks : list (option string)) :
  enter c st Q = Pending st1 inv ->
  let r := foldl onTextStream (inv, st1) (chunk :: chunks) in
  searchResult r.2 = Some {| text := joined (chunk :: chunks); sources := [] |}
  ∧ fullText r.1 = joined (chunk :: chunks)
  ∧ isLoading r.2 = negb c
  ∧ isImageLoading r.2 = true.
Proof.
  intros Henter r.
  destruct (onTextStream_published chunks chunk inv st1) as (Hres & Hload & Himg & Hfull).
  fold r in Hres, Hload, Himg, Hfull.
  unfold enter in Henter. destruct (isSearching st); [done|].
  destruct (negb (nonEmpty (normalize Q))); [done|].
  destruct (cache st !! normalize Q); [done|]. injection Henter as <- <-.
  rewrite Hres, Hload, Himg, Hfull. cbn. by destruct c.
Qed.

Lemma streaming_publishes_the_text_so_far_witness :
  isLoading
    (foldl onTextStream
       (match enter false initialState "Viga" with
        | Pending st1 inv => (inv, st1)
        | _ => ({| searchQuery := ""; normalizedQuery := ""; fullText := "";
                   capturedIsLoading := false; capturedImageUrl := None |}, initialState)
        end)
       [Some "# Viga"; Some "Paso 1"]).2
  = true.
Proof.
  refine (proj1 (proj2 (proj2
            (streaming_publishes_the_text_so_far false initialState _ "Viga" _
               (Some "# Viga") [Some "Paso 1"] _)))).
  reflexivity.
Defined.

(** X14. When a generator rejects with an instance of one of the classes of
    [errors.ts], either component publishes the message of that error, never
    the fallback text: the text error for the report generator, the image
    error for the image generator. *)
Theorem typed_errors_show_their_message (a : Variant) (c : bool) (st : AppState)
    (Q : string) (run : Run (ImageValue a)) (e : ApiErrorObj) :
  isSearching st = false ->
  nonEmpty (normalize Q) = true ->
  cache st !! normalize Q = None ->
  (sourcesResult run = Rejected (reasonOf e) ->
   error (handleSearchOf a c st Q run).1 = Some (errMessage e))
  ∧ (imageResult run = Rejected (reasonOf e) ->
     imageError (handleSearchOf a c st Q run).1 = Some (errMessage e)).
Proof.
  intros Hs Hq Hc.
  assert (∀ fallback, errorMessage (reasonOf e) fallback = errMessage e) as Hmsg.
  { intros fallback. by destruct e as [[] m]. }
  destruct (handleSearch_miss a c st Q run Hs Hq Hc) as (inv & st2 & Hrun & _).
  rewrite Hrun. clear Hrun. split; intros Hrej.
  - settle_cases a run; simplify_eq; by rewrite Hmsg.
  - settle_cases a run; simplify_eq; by rewrite Hmsg.
Qed.

Lemma typed_errors_show_their_message_witness :
  imageError (handleSearchOf FirstApp false initialState "Viga" (imageFailedRun FirstApp)).1
  = Some (errMessage newNetworkError).
Proof.
  refine (proj2 (typed_errors_show_their_message FirstApp false initialState "Viga"
                   (imageFailedRun FirstApp) newNetworkError _ _ _) _); reflexivity.
Defined.

(** X15. In the second component, a search whose image succeeds revokes the
    object URL that was published when the search was called, also when an
    entry of the cache holds that URL: the entry stays in the cache with the
    revoked URL. *)
Theorem second_component_revokes_cached_url (c : bool) (st : AppState) (Q : string)
    (run : Run BlobImage) (blob : BlobImage) (u k : string) (entry : CacheEntry) :
  isSearching st = false ->
  nonEmpty (normalize Q) = true ->
  cache st !! normalize Q = None ->
  imageUrl st = Some u ->
  nonEmpty u = true ->
  cache st !! k = Some entry ->
  cachedImageUrl entry = Some u ->
  imageResult run = Fulfilled blob ->
  RevokeObjectURL u ∈ (App001.handleSearch c st Q run).2
  ∧ cache (App001.handleSearch c st Q run).1 !! k = Some entry.
Proof.
  intros Hs Hq Hc Hu Hne Hk Hentry Himg.
  assert (k ≠ normalize Q) as Hkq by congruence.
  destruct (handleSearch_miss SecondApp c st Q run Hs Hq Hc)
    as (inv & st2 & Hrun & _ & Hi2 & Hi3 & _ & _ & Hca & _).
  change (handleSearchOf SecondApp c st Q run) with (App001.handleSearch c st Q run) in Hrun.
  rewrite Hrun. clear Hrun. cbn [ImageValue settleOf] in *.
  unfold App001.settle. rewrite Himg, Hi3, Hu. cbn [App001.revokePrevious]. rewrite Hne.
  split.
  - destruct (sourcesResult run); cbn; apply elem_of_cons; right; apply elem_of_cons;
      right; apply elem_of_cons; by left.
  - rewrite <- Hk, <- Hca.
    destruct (sourcesResult run); cbn -[updateHistory];
      repeat match goal with
             | |- context [if nonEmpty ?x then _ else _] =>
                 destruct (nonEmpty x) eqn:?; cbn -[updateHistory]
             end;
      rewrite ?Hi2; by rewrite ?lookup_insert_ne, ?lookup_delete_ne.
Qed.

Lemma second_component_revokes_cached_url_witness :
  let st := (App001.handleSearch false initialState "Viga" (goodRun SecondApp)).1 in
  RevokeObjectURL "blob:1" ∈ (App001.handleSearch false st "Muro" (goodRun SecondApp)).2.
Proof.
  intros st.
  refine (proj1 (second_component_revokes_cached_url false st "Muro" (goodRun SecondApp)
            (goodImage SecondApp) "blob:1" "viga"
            {| result := {| text := "# Viga"; sources := [] |};
               cachedImageUrl := Some "blob:1" |} _ _ _ _ _ _ _ _));
    vm_compute; reflexivity.
Defined.

(** X16. In either component the history follows the report alone: a search
    that runs the generators puts its query at the front of the history when
    the report generator succeeds, whatever the image does, and leaves the
    history as it was when the report generator fails. *)
Theorem history_follows_the_report (a : Variant) (c : bool) (st : AppState)
    (Q : string) (run : Run (ImageValue a)) :
  isSearching st = false ->
  nonEmpty (normalize Q) = true ->
  cache st !! normalize Q = None ->
  searchHistory (handleSearchOf a c st Q run).1
  = match sourcesResult run with
    | Fulfilled _ => updateHistory Q (normalize Q) (searchHistory st)
    | Rejected _ => searchHistory st
    end.
Proof.
  intros Hs Hq Hc.
  destruct (handleSearch_miss a c st Q run Hs Hq Hc)
    as (inv & st2 & Hrun & Hi1 & Hi2 & _ & _ & _ & _ & Hh & _).
  rewrite Hrun. clear Hrun. rewrite <- Hh, <- Hi2, <- Hi1.
  settle_cases a run; done.
Qed.

Lemma history_follows_the_report_witness :
  searchHistory (handleSearchOf FirstApp false initialState "Viga" (textFailedRun FirstApp)).1
  = [].
Proof.
  refine (history_follows_the_report FirstApp false initialState "Viga"
            (textFailedRun FirstApp) _ _ _); reflexivity.
Defined.

(** ** The service of the second component *)

(** X17. [handleApiError] of the second service keeps the message of an
    [ApiError] thrown inside the [try] block and chooses the class from the
    message alone: the class that the error was thrown with is not kept. *)
Theorem ServiceBlob_class_from_message_alone (a : ApiErrorObj) (cls : ErrorClass) :
  nonEmpty (errMessage a) = true ->
  errMessage (ServiceBlob.handleApiError (CaughtApiError a)) = errMessage a
  ∧ ServiceBlob.handleApiError (CaughtApiError (newError cls (errMessage a)))
    = ServiceBlob.handleApiError (CaughtApiError a).
Proof.
  intros Hm. unfold ServiceBlob.handleApiError, ServiceBlob.messageOf.
  cbn [errMessage errClass]. rewrite Hm. split; [|done].
  repeat match goal with
         | |- context [if ?b then _ else _] => destruct b
         end; done.
Qed.

Lemma ServiceBlob_class_from_message_alone_witness :
  ServiceBlob.handleApiError
    (CaughtApiError (newError ApiError (errMessage newNoApiKeyError)))
  = ServiceBlob.handleApiError (CaughtApiError newNoApiKeyError).
Proof.
  refine (proj2 (ServiceBlob_class_from_message_alone newNoApiKeyError ApiError _)).
  reflexivity.
Defined.

(** X18. Without an API key in either place, [generateProcessImage] of the
    second service rejects every non-empty query with a plain [ApiError]
    that carries the message of [NoApiKeyError]: [getGenAI] throws inside
    the [try] block, and the handler does not find a key pattern in the
    message.  The provider's reply is not looked at. *)
Theorem ServiceBlob_missing_key
    (decode : string -> Caught + string) (envKey windowKey : option string)
    (query : string) (response : Reply (option GenerateImagesResponse)) :
  nonEmpty query = true ->
  envKey = None ∨ envKey = Some "" ->
  windowKey = None ∨ windowKey = Some "" ->
  ServiceBlob.generateProcessImage decode envKey windowKey query response
  = Rejected (newError ApiError (errMessage newNoApiKeyError)).
Proof.
  intros Hq Henv Hwin. unfold ServiceBlob.generateProcessImage. rewrite Hq.
  by destruct Henv as [-> | ->], Hwin as [-> | ->].
Qed.

Lemma ServiceBlob_missing_key_witness :
  ServiceBlob.generateProcessImage (fun s => inr s) None (Some "") "viga"
    (Replies (Some {| generatedImages :=
                        Some [ {| image := Some {| imageBytes := Some "AAAA" |} |} ] |}))
  = Rejected (newError ApiError (errMessage newNoApiKeyError)).
Proof.
  apply ServiceBlob_missing_key; [reflexivity | by left | by right].
Defined.



(** X20. With a key and a non-empty query, a reply without a first image is
    rejected with the [ApiError] of the missing image, and a first image
    without bytes with the [ApiError] of the invalid data: the handler that
    catches them lets both through with their class and message. *)
Theorem ServiceBlob_content_missing
    (decode : string -> Caught + string) (envKey windowKey : option string)
    (query key : string) (response : option GenerateImagesResponse) :
  nonEmpty query = true ->
  ServiceBlob.getGenAI envKey windowKey = inr key ->
  match response with
  | Some r => Service.firstImageBytes r = None
  | None => True
  end ->
  ∃ e, ServiceBlob.generateProcessImage decode envKey windowKey query (Replies response)
       = Rejected e
       ∧ errClass e = ApiError
       ∧ e = match response with
             | Some {| generatedImages := Some (_ :: _) |} => ServiceBlob.noImageBytes
             | _ => ServiceBlob.noImage
             end.
Proof.
  intros Hq Hkey Hr. unfold ServiceBlob.generateProcessImage. rewrite Hq, Hkey. cbn [negb].
  destruct response as [[[[|img rest]|]]|].
  - by eexists.
  - unfold Service.firstImageBytes in Hr. cbn [generatedImages] in *.
    destruct (image img) as [i|]; [|by eexists].
    destruct (imageBytes i) as [b|]; [|by eexists].
    destruct (nonEmpty b); [done | by eexists].
  - by eexists.
  - by eexists.
Qed.

Lemma ServiceBlob_content_missing_witness :
  ∃ e, ServiceBlob.generateProcessImage (fun s => inr s) (Some "k") None "viga"
         (Replies (Some {| generatedImages := Some [ {| image := None |} ] |}))
       = Rejected e
       ∧ errClass e = ApiError
       ∧ e = ServiceBlob.noImageBytes.
Proof.
  refine (ServiceBlob_content_missing (fun s => inr s) (Some "k") None "viga" "k"
            (Some {| generatedImages := Some [ {| image := None |} ] |}) _ _ _);
    reflexivity.
Defined.

Lemma indexOf_noComma (s : string) : noComma s = true -> indexOf s "," = (-1)%Z.
Proof.
  induction s as [|c s IH]; [done|]. cbn [noComma indexOf].
  destruct (Ascii.eqb c ","); [done|]. cbn [negb andb]. intros H. by rewrite IH.
Qed.

Lemma split_noComma (s : string) : noComma s = true -> split s "," = [s].
Proof.
  induction s as [|c s IH]; [done|]. cbn [noComma split].
  destruct (Ascii.eqb c ","); [done|]. cbn [negb andb]. intros H. by rewrite IH.
Qed.

Lemma split_prefix (p rest : string) :
  noComma p = true -> split (p +:+ String "," rest) "," = p :: split rest ",".
Proof.
  induction p as [|c p IH]; [done|]. cbn [noComma].
  change (String c p +:+ String "," rest) with (String c (p +:+ String "," rest)).
  cbn [split]. destruct (Ascii.eqb c ","); [done|]. cbn [negb andb]. intros H.
  by rewrite IH.
Qed.

Lemma indexOf_prefix (p rest : string) :
  noComma p = true -> indexOf (p +:+ String "," rest) "," = Z.of_nat (String.length p).
Proof.
  induction p as [|c p IH]; [done|]. cbn [noComma].
  change (String c p +:+ String "," rest) with (String c (p +:+ String "," rest)).
  cbn [indexOf String.length]. destruct (Ascii.eqb c ","); [done|]. cbn [negb andb].
  intros H. rewrite IH by done.
  destruct (Z.ltb_spec (Z.of_nat (String.length p)) 0); lia.
Qed.

(** X21. [convertBase64ToBlob] decodes what follows the prefix of a data
    URL, and the whole argument when it has no comma: a payload without a
    comma, as base 64 is, reaches the decoder as it is in both cases. *)
Theorem convertBase64ToBlob_strips_prefix
    (decode : string -> Caught + string) (prefix bytes : string) :
  noComma prefix = true ->
  noComma bytes = true ->
  ServiceBlob.convertBase64ToBlob decode (prefix +:+ "," +:+ bytes)
  = ServiceBlob.base64ToBlob decode bytes "image/jpeg"
  ∧ ServiceBlob.convertBase64ToBlob decode bytes
    = ServiceBlob.base64ToBlob decode bytes "image/jpeg".
Proof.
  intros Hp Hb. unfold ServiceBlob.convertBase64ToBlob, ServiceBlob.rawBase64. split.
  - change ("," +:+ bytes) with (String "," bytes).
    rewrite indexOf_prefix, split_prefix, split_noComma by done.
    destruct (Z.leb_spec 0 (Z.of_nat (String.length prefix))); [done | lia].
  - by rewrite indexOf_noComma.
Qed.

Lemma convertBase64ToBlob_strips_prefix_witness :
  ServiceBlob.convertBase64ToBlob (fun s => inr s) ("data:image/jpeg;base64" +:+ "," +:+ "AAAA")
  = inr {| blobData := "AAAA"; blobMime := "image/jpeg" |}.
Proof.
  refine (proj1 (convertBase64ToBlob_strips_prefix (fun s => inr s)
                   "data:image/jpeg;base64" "AAAA" _ _)); reflexivity.
Defined.

(** ** The rendered report and the exported files *)

Lemma prefix_app (n r b : string) :
  String.prefix n r = true -> String.prefix n (r +:+ b) = true.
Proof.
  revert r. induction n as [|c n IH]; intros r; [by destruct r, b|].
  destruct r as [|d r]; [done|].
  change (String d r +:+ b) with (String d (r +:+ b)). cbn [String.prefix].
  destruct (ascii_dec c d); [apply IH | done].
Qed.

Lemma includes_tail (c : ascii) (t n : string) :
  includes (String c t) n = false -> includes t n = false.
Proof. cbn [includes]. by intros [_ ?]%orb_false_iff. Qed.

(** A string without [n] has no piece with [n]. *)
Lemma includes_suffix (a r n : string) :
  includes (a +:+ r) n = false -> includes r n = false.
Proof.
  induction a as [|c a IH]; [done|].
  change (String c a +:+ r) with (String c (a +:+ r)).
  intros H. by apply IH, (includes_tail c).
Qed.

Lemma includes_prefix (r b n : string) :
  includes (r +:+ b) n = false -> includes r n = false.
Proof.
  induction r as [|c r IH].
  - destruct n as [|d n]; [by destruct b|]. done.
  - change (String c r +:+ b) with (String c (r +:+ b)). cbn [includes].
    intros [Hp Ht]%orb_false_iff. apply orb_false_iff. split; [|by apply IH].
    destruct (String.prefix n (String c r)) eqn:Hn; [|done].
    apply (prefix_app _ _ b) in Hn.
    change (String c r +:+ b) with (String c (r +:+ b)) in Hn. congruence.
Qed.

Lemma take_drop_string (k : nat) (s : string) : takeString k s +:+ dropString k s = s.
Proof.
  revert s. induction k as [|k IH]; intros [|c s]; try done.
  cbn [takeString dropString].
  change (String c (takeString k s) +:+ dropString k s)
    with (String c (takeString k s +:+ dropString k s)).
  by rewrite IH.
Qed.

Lemma trimStart_suffix (s : string) : ∃ a, s = a +:+ trimStart s.
Proof.
  induction s as [|c s [a Ha]]; [by exists ""|]. cbn [trimStart].
  destruct (isWhiteSpace c); [|by exists ""].
  exists (String c a). change (String c a +:+ trimStart s) with (String c (a +:+ trimStart s)).
  by rewrite <- Ha.
Qed.

Lemma trimEnd_prefix (s : string) : ∃ b, s = trimEnd s +:+ b.
Proof.
  induction s as [|c s [b Hb]]; [by exists ""|]. cbn [trimEnd].
  destruct (trimEnd s) as [|d t] eqn:Ht.
  - destruct (isWhiteSpace c); [by exists (String c s)|].
    exists s. done.
  - exists b. change (String c (String d t) +:+ b) with (String c (String d t +:+ b)).
    by rewrite <- Hb.
Qed.

Lemma dropHashes_suffix (s : string) : ∃ a, s = a +:+ ResultDisplay.dropHashes s.
Proof.
  induction s as [|c s [a Ha]]; [by exists ""|]. cbn [ResultDisplay.dropHashes].
  destruct (Ascii.eqb c "#"); [|by exists ""].
  exists (String c a).
  change (String c a +:+ ResultDisplay.dropHashes s)
    with (String c (a +:+ ResultDisplay.dropHashes s)).
  by rewrite <- Ha.
Qed.

Section Pieces.

Variable n : string.

Lemma includes_dropString (k : nat) (s : string) :
  includes s n = false -> includes (dropString k s) n = false.
Proof. rewrite <- (take_drop_string k s) at 1. apply includes_suffix. Qed.

Lemma includes_takeString (k : nat) (s : string) :
  includes s n = false -> includes (takeString k s) n = false.
Proof. rewrite <- (take_drop_string k s) at 1. apply includes_prefix. Qed.

Lemma includes_trimStart (s : string) :
  includes s n = false -> includes (trimStart s) n = false.
Proof. destruct (trimStart_suffix s) as [a Ha]. rewrite Ha at 1. apply includes_suffix. Qed.

Lemma includes_trimEnd (s : string) :
  includes s n = false -> includes (trimEnd s) n = false.
Proof. destruct (trimEnd_prefix s) as [b Hb]. rewrite Hb at 1. apply includes_prefix. Qed.

Lemma includes_trim (s : string) :
  includes s n = false -> includes (trim s) n = false.
Proof. intros H. by apply includes_trimEnd, includes_trimStart. Qed.

Lemma includes_dropHashes (s : string) :
  includes s n = false -> includes (ResultDisplay.dropHashes s) n = false.
Proof.
  destruct (dropHashes_suffix s) as [a Ha]. rewrite Ha at 1. apply includes_suffix.
Qed.

Lemma includes_substring (s : string) (a b : Z) :
  includes s n = false -> includes (substring s a b) n = false.
Proof. intros H. by apply includes_takeString, includes_dropString. Qed.

End Pieces.

Lemma removeBold_no_bold_upto (k : nat) (s : string) :
  (String.length s ≤ k)%nat -> includes (ResultDisplay.removeBold s) "**" = false.
Proof.
  revert s. induction k as [|k IH]; intros s Hk.
  { destruct s; [done | cbn in Hk; lia]. }
  destruct s as [|c t]; [done|]. cbn [String.length] in Hk.
  cbn [ResultDisplay.removeBold].
  destruct (Ascii.eqb_spec c "*") as [-> | Hc].
  - destruct t as [|c' t']; [done|]. cbn [String.length] in Hk.
    destruct (Ascii.eqb_spec c' "*") as [-> | Hc'].
    + apply IH. lia.
    + assert (includes (ResultDisplay.removeBold (String c' t')) "**" = false) as Ht
        by (apply IH; cbn [String.length]; lia).
      revert Ht. cbn [ResultDisplay.removeBold].
      destruct (Ascii.eqb_spec c' "*") as [? | _]; [done|].
      intros Ht. cbn [includes] in *. apply orb_false_iff. split; [|exact Ht].
      cbn [String.prefix]. destruct (ascii_dec "*" "*"); [|done].
      by destruct (ascii_dec "*" c').
  - cbn [includes]. apply orb_false_iff. split; [|apply IH; lia].
    cbn [String.prefix]. by destruct (ascii_dec "*" c).
Qed.

Lemma removeBold_no_bold (s : string) : includes (ResultDisplay.removeBold s) "**" = false.
Proof. by apply (removeBold_no_bold_upto (String.length s)). Qed.

(** X22. No text that the rendered report shows contains a bold marker
    [**]: every element shows pieces of its line after the markers were
    removed, and removing them leaves none behind. *)
Theorem formattedText_shows_no_bold_marker (searchResult : SearchResult)
    (e : ResultDisplay.Element) (t : string) :
  e ∈ ResultDisplay.formattedText searchResult ->
  t ∈ shown e ->
  includes t "**" = false.
Proof.
  unfold ResultDisplay.formattedText. intros (line & -> & _)%list_elem_of_fmap.
  pose proof (removeBold_no_bold line) as Hb. unfold ResultDisplay.renderLine.
  repeat match goal with
         | |- context [if ?b then _ else _] => destruct b eqn:?
         end; cbn [shown];
    rewrite ?elem_of_cons, ?elem_of_nil; intros H; destruct_or!; subst; try done;
    try by repeat first [ apply includes_dropString | apply includes_trim
                        | apply includes_substring ].
  destruct (trim (ResultDisplay.removeBold line)) as [|c s] eqn:Ht; [done|].
  pose proof (includes_trim "**" _ Hb) as Hs. rewrite Ht in Hs.
  cbn [String.prefix] in *. destruct (ascii_dec "#" c) as [<- | ]; [|done].
  cbn [ResultDisplay.removeHeadingMarks Ascii.eqb Bool.eqb].
  by apply includes_trimStart, includes_dropHashes, (includes_tail "#").
Qed.

Lemma formattedText_shows_no_bold_marker_witness :
  includes "1. Excavar:" "**" = false.
Proof.
  refine (formattedText_shows_no_bold_marker
            {| text := "# Viga" +:+ String "010" "**1. Excavar:** abrir la zanja";
               sources := [] |}
            (ResultDisplay.NumberedItem "1. Excavar:" " abrir la zanja") _ _ _).
  - vm_compute. apply list_elem_of_further, list_elem_of_here.
  - vm_compute. apply list_elem_of_here.
Defined.

Lemma takeString_to_index (s : string) (ch : ascii) :
  (0 <= indexOf s ch)%Z ->
  let h := takeString (Z.to_nat (indexOf s ch + 1)) s in
  endsWith h (String ch "") = true
  ∧ indexOf h ch = indexOf s ch
  ∧ Z.of_nat (String.length h) = (indexOf s ch + 1)%Z.
Proof.
  induction s as [|c s IH]; [done|]. cbn [indexOf].
  destruct (Ascii.eqb c ch) eqn:Hc.
  - intros _. apply Ascii.eqb_eq in Hc as ->.
    change (Z.to_nat (0 + 1)) with 1%nat. cbn [takeString endsWith indexOf String.length].
    by rewrite String.eqb_refl, Ascii.eqb_refl.
  - destruct (Z.ltb_spec (indexOf s ch) 0) as [? | Hi]; [lia|]. intros _.
    destruct (IH Hi) as (He & Hx & Hl).
    replace (Z.to_nat (indexOf s ch + 1 + 1)) with (S (Z.to_nat (indexOf s ch + 1))) by lia.
    cbn [takeString endsWith indexOf String.length]. rewrite Hc, He, Hx.
    split; [by rewrite orb_true_r|]. split; [|lia].
    destruct (Z.ltb_spec (indexOf s ch) 0); [lia | done].
Qed.

(** X23. A numbered line with a colon is rendered in two parts that lose
    nothing: the heading, which ends with the first colon of the line, and
    the body give back the trimmed line without its bold markers. *)
Theorem numbered_item_splits_at_first_colon (line heading body : string) :
  ResultDisplay.renderLine line = ResultDisplay.NumberedItem heading body ->
  heading +:+ body = trim (ResultDisplay.removeBold line)
  ∧ endsWith heading ":" = true
  ∧ indexOf heading ":" = (Z.of_nat (String.length heading) - 1)%Z.
Proof.
  unfold ResultDisplay.renderLine.
  repeat match goal with
         | |- context [if ?b then _ else _] => destruct b eqn:?
         end; try done.
  intros [= <- <-].
  set (s := trim (ResultDisplay.removeBold line)) in *.
  assert (0 <= indexOf s ":")%Z as Hi.
  { apply Z.ltb_lt in Heqb3. lia. }
  assert (substring s 0 (indexOf s ":" + 1) = takeString (Z.to_nat (indexOf s ":" + 1)) s)
    as ->.
  { unfold substring. rewrite (Z.max_r 0 (indexOf s ":" + 1)) by lia.
    change (Z.to_nat (Z.max 0 0)) with 0%nat.
    by rewrite Nat.min_0_l, Nat.max_0_l, Nat.sub_0_r. }
  destruct (takeString_to_index s ":" Hi) as (He & Hx & Hl).
  split; [apply take_drop_string|]. split; [exact He|]. rewrite Hx. lia.
Qed.

Lemma numbered_item_splits_at_first_colon_witness :
  "1. Excavar:" +:+ " abrir la zanja" = trim (ResultDisplay.removeBold "**1. Excavar:** abrir la zanja").
Proof.
  refine (proj1 (numbered_item_splits_at_first_colon _ _ _ _)). reflexivity.
Defined.

Lemma trimEnd_head (c : ascii) (s : string) :
  isWhiteSpace c = false -> ∃ t, trimEnd (String c s) = String c t.
Proof.
  intros Hc. cbn [trimEnd]. rewrite Hc. destruct (trimEnd s); by eexists.
Qed.




Lemma noWhiteSpace_app (a b : string) :
  noWhiteSpace (a +:+ b) = noWhiteSpace a && noWhiteSpace b.
Proof.
  induction a as [|c a IH]; [done|].
  change (String c a +:+ b) with (String c (a +:+ b)). cbn [noWhiteSpace].
  by rewrite IH, andb_assoc.
Qed.

Lemma noWhiteSpace_replace (inRun : bool) (s : string) :
  noWhiteSpace (replaceWhiteSpaceFrom inRun s) = true.
Proof.
  revert inRun. induction s as [|c s IH]; intros inRun; [done|].
  cbn [replaceWhiteSpaceFrom]. destruct (isWhiteSpace c) eqn:Hc.
  - destruct inRun; [apply IH|]. cbn [noWhiteSpace]. by rewrite IH.
  - cbn [noWhiteSpace]. by rewrite Hc, IH.
Qed.

Lemma isWhiteSpace_lowerCode (c : ascii) : isWhiteSpace (lowerCode c) = isWhiteSpace c.
Proof. by destruct c as [[] [] [] [] [] [] [] []]. Qed.

Lemma noWhiteSpace_toLowerCase (s : string) :
  noWhiteSpace (toLowerCase s) = noWhiteSpace s.
Proof.
  induction s as [|c s IH]; [done|]. cbn [toLowerCase noWhiteSpace].
  by rewrite isWhiteSpace_lowerCode, IH.
Qed.

Lemma noWhiteSpace_slug (query : string) : noWhiteSpace (ResultDisplay.slug query) = true.
Proof.
  unfold ResultDisplay.slug, replaceWhiteSpace.
  by rewrite noWhiteSpace_toLowerCase, noWhiteSpace_replace.
Qed.

(** X25. The names under which both components save the report and the
    illustration as PDF contain no white space, whatever the query. *)
Theorem saved_names_have_no_white_space (query : string) :
  noWhiteSpace (reportFileName query) = true
  ∧ noWhiteSpace (imageFileName query) = true
  ∧ noWhiteSpace (Print001.reportFileName query) = true
  ∧ noWhiteSpace (Print001.imageFileName query) = true.
Proof.
  unfold reportFileName, imageFileName, Print001.reportFileName, Print001.imageFileName,
    replaceWhiteSpace.
  by rewrite !noWhiteSpace_app, noWhiteSpace_slug, noWhiteSpace_replace.
Qed.

Lemma endsWith_suffix (a s suffix : string) :
  endsWith s suffix = true -> endsWith (a +:+ s) suffix = true.
Proof.
  intros H. induction a as [|c a IH]; [done|].
  change (String c a +:+ s) with (String c (a +:+ s)). cbn [endsWith].
  by rewrite IH, orb_true_r.
Qed.

(** X26. [handleExportTxt] offers a file exactly when there is a result with
    a non-empty text: the file holds that text unchanged, and its name is
    [resumen_], the query in lower case with every run of white space
    replaced by one underscore, and [.txt], so without white space. *)
Theorem handleExportTxt_exports_the_text (searchResult : option SearchResult)
    (query : string) :
  match ResultDisplay.handleExportTxt searchResult query with
  | Some (name, content) =>
      content = textOf searchResult
      ∧ nonEmpty content = true
      ∧ noWhiteSpace name = true
      ∧ String.prefix "resumen_" name = true
      ∧ endsWith name ".txt" = true
  | None => textOf searchResult = ""
  end.
Proof.
  unfold ResultDisplay.handleExportTxt, textOf.
  destruct searchResult as [r|]; [|done].
  destruct (nonEmpty (text r)) eqn:Ht; [|by apply nonEmpty_false].
  split; [done|]. split; [done|]. split.
  { by rewrite !noWhiteSpace_app, noWhiteSpace_slug. }
  split; [by apply (prefix_app "resumen_" "resumen_")|].
  apply (endsWith_suffix "resumen_"). generalize (ResultDisplay.slug query). intros s.
  induction s as [|c s IH]; [done|].
  change (String c s +:+ ".txt") with (String c (s +:+ ".txt")).
  cbn [endsWith]. by rewrite IH, orb_true_r.
Qed.

Lemma prefix_nil (s : string) : String.prefix "" s = true.
Proof. by destruct s. Qed.

(** X27. How marked lines are rendered: a line that starts with [# ] is a
    first-level heading, one with [## ] a second-level heading, one with
    [- ] or [* ] a bullet, each showing the rest of the line without bold
    markers. *)
Theorem marked_lines_are_rendered_by_their_mark (t : string) :
  ResultDisplay.renderLine ("# " +:+ t) = ResultDisplay.H1 (ResultDisplay.removeBold t)
  ∧ ResultDisplay.renderLine ("## " +:+ t) = ResultDisplay.H2 (ResultDisplay.removeBold t)
  ∧ ResultDisplay.renderLine ("- " +:+ t) = ResultDisplay.Bullet (ResultDisplay.removeBold t)
  ∧ ResultDisplay.renderLine ("* " +:+ t) = ResultDisplay.Bullet (ResultDisplay.removeBold t).
Proof.
  unfold ResultDisplay.renderLine. cbn zeta.
  change (ResultDisplay.removeBold ("# " +:+ t))
    with (String "#" (String " " (ResultDisplay.removeBold t))).
  change (ResultDisplay.removeBold ("## " +:+ t))
    with (String "#" (String "#" (String " " (ResultDisplay.removeBold t)))).
  change (ResultDisplay.removeBold ("- " +:+ t))
    with (String "-" (String " " (ResultDisplay.removeBold t))).
  change (ResultDisplay.removeBold ("* " +:+ t))
    with (String "*" (String " " (ResultDisplay.removeBold t))).
  generalize (ResultDisplay.removeBold t). intros s.
  split; [|split; [|split]].
  - cbn [String.prefix]. destruct (ascii_dec "#" "#"); [|done].
    destruct (ascii_dec " " " "); [|done]. by rewrite prefix_nil.
  - cbn [String.prefix]. repeat (destruct (ascii_dec _ _); try done).
    by rewrite prefix_nil.
  - destruct (trimEnd_head "-" (String " " s) eq_refl) as [r Hr].
    unfold trim, ResultDisplay.isNumbered.
    change (trimStart (String "-" (String " " s))) with (String "-" (String " " s)).
    rewrite Hr. cbn [String.prefix]. repeat (destruct (ascii_dec _ _); try done).
    by rewrite prefix_nil.
  - destruct (trimEnd_head "*" (String " " s) eq_refl) as [r Hr].
    unfold trim, ResultDisplay.isNumbered.
    change (trimStart (String "*" (String " " s))) with (String "*" (String " " s)).
    rewrite Hr. cbn [String.prefix]. repeat (destruct (ascii_dec _ _); try done).
    by rewrite prefix_nil.
Qed.

(** ** Normal forms *)

Lemma trimEnd_idempotent (s : string) : trimEnd (trimEnd s) = trimEnd s.
Proof.
  induction s as [|c s IH]; [done|]. cbn [trimEnd].
  destruct (trimEnd s) as [|d t] eqn:Ht.
  - destruct (isWhiteSpace c) eqn:Hc; [done|]. cbn [trimEnd]. by rewrite Hc.
  - cbn [trimEnd] in *. by rewrite IH.
Qed.

Lemma trimStart_head (s : string) :
  trimStart s = "" ∨ ∃ c t, trimStart s = String c t ∧ isWhiteSpace c = false.
Proof.
  induction s as [|c s IH]; [by left|]. cbn [trimStart].
  destruct (isWhiteSpace c) eqn:Hc; [exact IH|]. right. by exists c, s.
Qed.

Lemma trim_idempotent (s : string) : trim (trim s) = trim s.
Proof.
  unfold trim. destruct (trimStart_head s) as [-> | (c & t & -> & Hc)]; [done|].
  destruct (trimEnd_head c t Hc) as [r Hr]. rewrite Hr.
  cbn [trimStart]. rewrite Hc, <- Hr. apply trimEnd_idempotent.
Qed.






(** ** The service on [@google/generative-ai] *)

(** X29. [fetchConstructionProcess] of this service resolves with the
    trimmed text of the reply, which trimming leaves as it is, and rejects
    every failure with the same [Error], whose message the components
    publish. *)
Theorem ServiceGenerative_text (reply : Reply string) (fallback : string) :
  match ServiceGenerative.fetchConstructionProcess reply with
  | Fulfilled report =>
      trim report = report ∧ ∃ text, reply = Replies text ∧ report = trim text
  | Rejected reason =>
      (∃ thrown, reply = Fails thrown)
      ∧ errorMessage reason fallback
        = "No se pudo generar el texto del proceso constructivo."
  end.
Proof.
  destruct reply as [text | thrown]; cbn [ServiceGenerative.fetchConstructionProcess].
  - split; [apply trim_idempotent | by exists text].
  - split; [by exists thrown | done].
Qed.

(** X30. [generateProcessImage] of this service resolves only when the
    first part of the first candidate has non-empty inline data that
    decodes, with a [Blob] of the decoded bytes and the type [image/jpeg];
    every other reply, the missing image included, is rejected with the same
    [Error]. *)
Theorem ServiceGenerative_image (decode : string -> Caught + string)
    (reply : Reply GenerateContentResponse) :
  match ServiceGenerative.generateProcessImage decode reply with
  | Fulfilled blob =>
      ∃ response b,
        reply = Replies response
        ∧ ServiceGenerative.firstInlineData response = ReadValue (Some b)
        ∧ nonEmpty b = true
        ∧ decode b = inr (blobData blob)
        ∧ blobMime blob = "image/jpeg"
  | Rejected reason => reason = ServiceGenerative.imageFailure
  end.
Proof.
  unfold ServiceGenerative.generateProcessImage.
  destruct reply as [response | thrown]; [|done].
  destruct (ServiceGenerative.firstInlineData response) as [[b|] |] eqn:Hr; [|done..].
  destruct (nonEmpty b) eqn:Hb; [|done].
  destruct (decode b) as [thrown | bytes] eqn:Hd; [done|].
  by exists response, b.
Qed.
